(** * EmotionEase backend: contact and signup routes

    A shallow embedding of the route modules of the repository
    (routes/SubdomainContact.js, routes/SignUp.js and the earlier
    contact-router variants) together with the properties of the
    specification that concern them.

    Conventions of the embedding.
    - JavaScript strings are [string]s, the sequence of the 8-bit units of
      their UTF-8 encoding; every operation of the routes that replaces,
      keeps or tests ASCII characters acts on them as it does on the
      JavaScript string. The operations that depend on what a character
      is (white space, length in characters) belong to the host
      interface.
    - [process.env] and express [Map]s are [gmap]s.
    - Objects that the code shares by reference (a submission held both by
      the store and by the suspended handler) live in a heap, a list indexed
      by location; the store holds locations.
    - An [async] handler is cut at the [await]s at which other work can
      change what it reads: the part before the wait on the mail transport
      is a [begin] function, the part after it a [settle] function that
      takes the outcome of the sends.
    - Clock readings ([Date.now()], [new Date()]) are inputs, in
      milliseconds since the epoch. *)

From Stdlib Require Import ZArith String Ascii List Bool Lia Sorted.
From stdpp Require Import base option list gmap strings pretty.

Local Open Scope Z_scope.
Local Open Scope string_scope.

(** ** JavaScript string primitives used by the routes *)

Module JS.

(** The double-quote character, as a one-character string. *)
Definition dq : string := String (ascii_of_nat 34) EmptyString.
Definition dq_char : ascii := ascii_of_nat 34.
Definition nl_char : ascii := ascii_of_nat 10.

(** Truthiness of a value that is a string, [null] or [undefined]. *)
Definition truthy (v : option string) : bool :=
  match v with
  | None => false
  | Some EmptyString => false
  | Some _ => true
  end.

(** [v || d] for such a value and a string default. *)
Definition or_default (v : option string) (d : string) : string :=
  match v with
  | Some (String a s) => String a s
  | _ => d
  end.

(** [`${v}`]: how a template literal prints a possibly-undefined value. *)
Definition show (v : option string) : string :=
  match v with
  | Some s => s
  | None => "undefined"
  end.

(** [s.replace(/c/g, by)] for a single character [c]. *)
Fixpoint replaceAll (c : ascii) (by_ : string) (s : string) : string :=
  match s with
  | EmptyString => EmptyString
  | String a s' =>
      if Ascii.eqb a c then by_ +:+ replaceAll c by_ s'
      else String a (replaceAll c by_ s')
  end.

(** [s.replace(/[^...]/g, '')]: keep the characters of a class. *)
Fixpoint keep (p : ascii -> bool) (s : string) : string :=
  match s with
  | EmptyString => EmptyString
  | String a s' => if p a then String a (keep p s') else keep p s'
  end.

(** [s.includes(sub)] *)
Fixpoint includes (s sub : string) : bool :=
  String.prefix sub s ||
  match s with
  | EmptyString => false
  | String _ s' => includes s' sub
  end.

Definition is_digit (a : ascii) : bool :=
  let n := nat_of_ascii a in (48 <=? n)%nat && (n <=? 57)%nat.

(** Membership of a character in a string. *)
Fixpoint occurs (c : ascii) (s : string) : bool :=
  match s with
  | EmptyString => false
  | String a s' => Ascii.eqb a c || occurs c s'
  end.

End JS.

(** Lifecycle status of a submission. *)
Inductive Status := pending | completed | failed.

#[global] Instance Status_eq_dec : EqDecision Status.
Proof. solve_decision. Defined.

(** Outcome of one [transporter.sendMail] promise. *)
Inductive SendResult :=
| Sent
| SendError (message : string).

(** [p.catch(err => { console.error(...) })]: the rejection is logged and
    the promise resolves. *)
Definition catch_logged (r : SendResult) : SendResult := Sent.

(** [Promise.all] over sends, listed in the order in which they settle: it
    rejects with the first rejection and resolves when there is none. *)
Fixpoint promise_all (settled : list SendResult) : SendResult :=
  match settled with
  | [] => Sent
  | Sent :: rest => promise_all rest
  | SendError m :: _ => SendError m
  end.

(** A message handed to [transporter.sendMail]. *)
Record MailOptions := {
  mail_from : string;
  mail_to : string;
  mail_subject : string;
  mail_html : string;
  mail_priority : option string
}.

(** ** Host and library functions outside the repository

    Locale-dependent date formatting and the functions of the validator
    package that depend on e-mail syntax, on white space or on the length
    of a text in characters are taken as an interface; every statement
    below holds for any implementation of it. *)

Class Host := {
  (** [new Date(ms).toLocaleString()] *)
  toLocaleString : Z -> string;
  (** [new Date(ms).getFullYear()], printed *)
  getFullYear : Z -> string;
  (** [isEmail()] of express-validator *)
  isEmail : string -> bool;
  (** [normalizeEmail()] of express-validator; its result [false] is
      represented by the text it prints as *)
  normalizeEmail : string -> string;
  (** [trim()] of express-validator: the text without the white space, in
      the sense of [\s], at its two ends *)
  trim : string -> string;
  (** [isLength({ min, max })] of express-validator, which counts
      characters; [None] is an absent [max] *)
  isLength : nat -> option nat -> string -> bool;
  (** the test of a pattern [/^[\s...]*$/]: every character of the text is
      white space in the sense of [\s] or an ASCII character of the given
      class *)
  allSpaceOr : (ascii -> bool) -> string -> bool
}.

(** ** express-validator chains, as the routes use them *)

Module Chain.

(** One link of a chain [body(path).a().b()...]: a validator together with
    the text given to [withMessage], or a sanitizer. *)
Inductive Item :=
| Check (test : string -> bool) (msg : string)
| Sanitize (f : string -> string).

Record t := {
  path : string;
  optional : bool;
  items : list Item
}.

(** An entry of [validationResult(req)]. *)
Record Error := {
  err_path : string;
  err_msg : string;
  err_value : string
}.

(** Validators see the value left by the sanitizers before them; a failing
    validator records an error and the chain goes on. *)
Fixpoint run_items (p : string) (its : list Item) (v : string)
  : string * list Error :=
  match its with
  | [] => (v, [])
  | Check test msg :: rest =>
      let '(v', es) := run_items p rest v in
      (v', if test v then es
           else {| err_path := p; err_msg := msg; err_value := v |} :: es)
  | Sanitize f :: rest => run_items p rest (f v)
  end.

(** Running one chain on [req.body]: an absent field is skipped by an
    [optional()] chain and read as the empty string otherwise; the
    sanitized value is written back. *)
Definition run (c : t) (body : gmap string string)
  : gmap string string * list Error :=
  match body !! path c with
  | None =>
      if optional c then (body, [])
      else let '(v, es) := run_items (path c) (items c) "" in
           (<[path c := v]> body, es)
  | Some v0 =>
      let '(v, es) := run_items (path c) (items c) v0 in
      (<[path c := v]> body, es)
  end.

(** The chains of a route run in order, as middleware. *)
Fixpoint run_all (rules : list t) (body : gmap string string)
  : gmap string string * list Error :=
  match rules with
  | [] => (body, [])
  | c :: rest =>
      let '(body1, es1) := run c body in
      let '(body2, es2) := run_all rest body1 in
      (body2, (es1 ++ es2)%list)
  end.

(** [errors.array({ onlyFirstError: true })]: the first error of each path,
    in order of first occurrence. *)
Fixpoint onlyFirstError_from (seen : list string) (es : list Error)
  : list Error :=
  match es with
  | [] => []
  | e :: rest =>
      if bool_decide (err_path e ∈ seen) then onlyFirstError_from seen rest
      else e :: onlyFirstError_from (err_path e :: seen) rest
  end.

Definition onlyFirstError (es : list Error) : list Error :=
  onlyFirstError_from [] es.

(** [fails_from v its m]: started on value [v], some validator of the chain
    [its] returns false on the value that reaches it, and [m] is its
    message. Stated without reference to [run_items]. *)
Inductive fails_from : string -> list Item -> string -> Prop :=
| ff_here v test msg rest :
    test v = false -> fails_from v (Check test msg :: rest) msg
| ff_next v test msg rest m :
    fails_from v rest m -> fails_from v (Check test msg :: rest) m
| ff_sanitize v f rest m :
    fails_from (f v) rest m -> fails_from v (Sanitize f :: rest) m.

(** Rule [c] rejects [body] with message [m]. *)
Definition rejects (c : t) (body : gmap string string) (m : string) : Prop :=
  match body !! path c with
  | None => optional c = false /\ fails_from "" (items c) m
  | Some v0 => fails_from v0 (items c) m
  end.

End Chain.

(** The sanitizer and the validators of the validator package that act on
    ASCII characters only, and so on the 8-bit units as on the text. *)
Module Validator.

(** [escape()]: the eight replacements of the package, in its order. *)
Definition escape (s : string) : string :=
  JS.replaceAll "`" "&#96;"
   (JS.replaceAll "\" "&#x5C;"
    (JS.replaceAll "/" "&#x2F;"
     (JS.replaceAll ">" "&gt;"
      (JS.replaceAll "<" "&lt;"
       (JS.replaceAll "'" "&#x27;"
        (JS.replaceAll JS.dq_char "&quot;"
         (JS.replaceAll "&" "&amp;" s))))))).

(** [notEmpty()] *)
Definition notEmpty (s : string) : bool :=
  negb (String.eqb s "").

(** [matches(/^[...]*$/)] for a class of ASCII characters. *)
Fixpoint all_in (p : ascii -> bool) (s : string) : bool :=
  match s with
  | EmptyString => true
  | String a s' => p a && all_in p s'
  end.

End Validator.

(** * routes/SubdomainContact.js *)

Module SubdomainContact.

(** ** Configuration constants *)

(** The options handed to [rateLimit] (lines 12-16). *)
Record RateLimitOptions := {
  windowMs : Z;
  max : Z;
  message : string
}.

Definition contactLimiter_options : RateLimitOptions := {|
  windowMs := 15 * 60 * 1000;
  max := 5;
  message := "Too many contact attempts, please try again later"
|}.

Definition SUBMISSION_TTL : Z := 24 * 60 * 60 * 1000.

(** Period of the [setInterval] that runs the sweep (line 30). *)
Definition SWEEP_INTERVAL : Z := 60 * 60 * 1000.

(** ** Data *)

(** A submission object. [date] is kept as the clock reading whose ISO text
    the code stores; [new Date(submission.date).getTime()] gives it back. *)
Record Submission := {
  id : string;
  name : string;
  email : string;
  phone : option string;
  date : Z;
  status : Status;
  ip : string;
  error : option string
}.

Definition set_status (s : Status) (sub : Submission) : Submission :=
  {| id := id sub; name := name sub; email := email sub; phone := phone sub;
     date := date sub; status := s; ip := ip sub; error := error sub |}.

Definition set_error (e : string) (sub : Submission) : Submission :=
  {| id := id sub; name := name sub; email := email sub; phone := phone sub;
     date := date sub; status := status sub; ip := ip sub; error := Some e |}.

(** ** createTransporter (lines 33-61) *)

Record TransportConfig := {
  pool : bool;
  maxConnections : Z;
  maxMessages : Z;
  rateDelta : Z;
  rateLimit : Z;
  auth_user : string;
  auth_pass : string;
  (** [None] is a property that is absent or [undefined] *)
  service : option string;
  host : option string;
  (** the text handed to [parseInt], when there is one *)
  port : option string;
  secure : option bool
}.

(** [throw new Error(msg)] *)
Inductive Thrown := Error (msg : string).

Definition createTransporter (env : gmap string string)
  : Thrown + TransportConfig :=
  if negb (JS.truthy (env !! "EMAIL_USER")) || negb (JS.truthy (env !! "EMAIL_PASS"))
  then inl (Error "Email credentials not configured")
  else
    let gmail := bool_decide (env !! "EMAIL_SERVICE" = Some "gmail") in
    inr {| pool := true;
           maxConnections := 5;
           maxMessages := 100;
           rateDelta := 1000;
           rateLimit := 5;
           auth_user := JS.show (env !! "EMAIL_USER");
           auth_pass := JS.show (env !! "EMAIL_PASS");
           service := if gmail then Some "gmail" else None;
           host := if gmail then None else env !! "EMAIL_HOST";
           port := if gmail then None else env !! "EMAIL_PORT";
           secure := if gmail then None
                     else Some (bool_decide (env !! "EMAIL_SECURE" = Some "true")) |}.

(** ** Template generators (lines 187-269) *)

(** Basic HTML escaping for security (lines 261-269). *)
Definition escapeHtml (unsafe : string) : string :=
  if negb (JS.truthy (Some unsafe)) then ""
  else
    JS.replaceAll "'" "&#039;"
     (JS.replaceAll JS.dq_char "&quot;"
      (JS.replaceAll ">" "&gt;"
       (JS.replaceAll "<" "&lt;"
        (JS.replaceAll "&" "&amp;" unsafe)))).

Section Route.
Context `{Host}.
Import JS.

Definition generateAdminEmail (submission : Submission) : string :=
  let safePhone :=
    if JS.truthy (phone submission)
    then JS.keep (fun a => JS.is_digit a || Ascii.eqb a "+") (JS.show (phone submission))
    else "" in
  String.concat "" [
    "
    <!DOCTYPE html>
    <html>
    <head>
      <meta charset=";
    dq;
    "UTF-8";
    dq;
    ">
      <style>
        body { font-family: Arial, sans-serif; line-height: 1.6; color: #333; }
        .container { max-width: 600px; margin: 0 auto; padding: 20px; }
        .header { color: #28a745; border-bottom: 1px solid #eee; padding-bottom: 10px; }
        .footer { margin-top: 20px; font-size: 0.9em; color: #777; }
        .info { margin: 15px 0; }
      </style>
    </head>
    <body>
      <div class=";
    dq;
    "container";
    dq;
    ">
        <h2 class=";
    dq;
    "header";
    dq;
    ">New Contact Submission</h2>
        <div class=";
    dq;
    "info";
    dq;
    ">
          <p><strong>Name:</strong> ";
    escapeHtml (name submission);
    "</p>
          <p><strong>Email:</strong> <a href=";
    dq;
    "mailto:";
    escapeHtml (email submission);
    dq;
    ">";
    escapeHtml (email submission);
    "</a></p>
          ";
    (if JS.truthy (phone submission) then
      String.concat "" ["<p><strong>Phone:</strong> <a href=";
      dq;
      "tel:";
      safePhone;
      dq;
      ">";
      escapeHtml (JS.show (phone submission));
      "</a></p>"]
     else "");
    "
          <p><strong>Date:</strong> ";
    toLocaleString (date submission);
    "</p>
          <p><strong>Reference ID:</strong> ";
    id submission;
    "</p>
          <p><strong>IP Address:</strong> ";
    ip submission;
    "</p>
        </div>
        <p>Please respond to this inquiry within 24 hours.</p>
        <div class=";
    dq;
    "footer";
    dq;
    ">
          <p>This is an automated message. Please do not reply directly to this email.</p>
        </div>
      </div>
    </body>
    </html>
  "].

Definition generateUserEmail (env : gmap string string) (submission : Submission) : string :=
  String.concat "" [
    "
    <!DOCTYPE html>
    <html>
    <head>
      <meta charset=";
    dq;
    "UTF-8";
    dq;
    ">
      <style>
        body { font-family: Arial, sans-serif; line-height: 1.6; color: #333; }
        .container { max-width: 600px; margin: 0 auto; padding: 20px; }
        .header { color: #28a745; border-bottom: 1px solid #eee; padding-bottom: 10px; }
        .footer { margin-top: 20px; font-size: 0.9em; color: #777; }
      </style>
    </head>
    <body>
      <div class=";
    dq;
    "container";
    dq;
    ">
        <h2 class=";
    dq;
    "header";
    dq;
    ">Thank You for Contacting Us</h2>
        <p>Dear ";
    escapeHtml (name submission);
    ",</p>
        <p>We've received your message and our team will review it shortly. Here's a summary of your submission:</p>
        
        <ul>
          <li><strong>Reference ID:</strong> ";
    id submission;
    "</li>
          <li><strong>Submitted:</strong> ";
    toLocaleString (date submission);
    "</li>
        </ul>
        
        <p>We typically respond within 24 hours. If you have urgent inquiries, please call our support line.</p>
        
        <div class=";
    dq;
    "footer";
    dq;
    ">
          <p>Best regards,<br>";
    escapeHtml (JS.or_default (env !! "EMAIL_FROM_NAME") "The Company Team");
    "</p>
          <p><small>This is an automated message. Please do not reply directly to this email.</small></p>
        </div>
      </div>
    </body>
    </html>
  "].


(** ** Validation rules (lines 66-86) *)

(** The characters of the class [[\d\s+()\-]] of line 85 other than the
    white space. *)
Definition phone_char (a : ascii) : bool :=
  is_digit a ||
  Ascii.eqb a "+" || Ascii.eqb a "(" || Ascii.eqb a ")" || Ascii.eqb a "-".

Definition contactValidationRules : list Chain.t := [
  {| Chain.path := "name"; Chain.optional := false;
     Chain.items := [
       Chain.Sanitize trim;
       Chain.Sanitize Validator.escape;
       Chain.Check Validator.notEmpty "Name is required";
       Chain.Check (isLength 0 (Some 100%nat))
         "Name must be less than 100 characters" ] |};
  {| Chain.path := "email"; Chain.optional := false;
     Chain.items := [
       Chain.Sanitize trim;
       Chain.Sanitize normalizeEmail;
       Chain.Check Validator.notEmpty "Email is required";
       Chain.Check isEmail "Email is invalid";
       Chain.Check (isLength 0 (Some 255%nat))
         "Email must be less than 255 characters" ] |};
  {| Chain.path := "phone"; Chain.optional := true;
     Chain.items := [
       Chain.Sanitize trim;
       Chain.Sanitize Validator.escape;
       Chain.Check (isLength 0 (Some 20%nat))
         "Phone must be less than 20 characters";
       Chain.Check (allSpaceOr phone_char)
         "Phone contains invalid characters" ] |}
].

(** ** Responses *)

Record FieldError := {
  field : string;
  fe_message : string
}.

Record ResponseData := {
  data_id : string;
  data_name : string;
  data_email : string
}.

(** The JSON bodies of the handler; [None] is a property that is absent or
    [undefined]. *)
Record Json := {
  success : bool;
  res_message : string;
  errors : option (list FieldError);
  data : option ResponseData;
  res_error : option string
}.

Inductive Body :=
| JsonBody (j : Json)
| TextBody (s : string).

Record Response := {
  statusCode : Z;
  body : Body
}.

(** What a step of the server emits. *)
Inductive Output :=
| Respond (r : Response)
| SendMail (m : MailOptions).

(** ** Process state *)

Record State := {
  (** submission objects, by location *)
  heap : list Submission;
  (** [const submissions = new Map()]: id to object *)
  submissions : gmap string nat;
  (** handlers suspended at [await Promise.all([sendMail, sendMail])],
      each holding its [submission] object *)
  inflight : gset nat;
  (** the limiter's record of accepted requests, by client address *)
  hits : gmap string (list Z)
}.

Definition init : State :=
  {| heap := []; submissions := ∅; inflight := ∅; hits := ∅ |}.

(** ** The store sweep (lines 23-30) *)

Definition expired (now : Z) (sub : Submission) : bool :=
  bool_decide (now - date sub > SUBMISSION_TTL).

Definition swept (now : Z) (h : list Submission) (l : nat) : bool :=
  match h !! l with
  | Some sub => expired now sub
  | None => false
  end.

Definition sweep (now : Z) (st : State) : State :=
  {| heap := heap st;
     submissions :=
       filter (fun kv : string * nat => swept now (heap st) kv.2 = false)
              (submissions st);
     inflight := inflight st;
     hits := hits st |}.

(** The [k]-th firing of the interval timer started at [t0]. *)
Definition sweep_time (t0 : Z) (k : nat) : Z :=
  t0 + (Z.of_nat k + 1) * SWEEP_INTERVAL.

(** ** The rate limiter *)

(** The times of a log that lie less than [windowMs] before [now]. *)
Definition recent (now : Z) (log : list Z) : list Z :=
  filter (fun t => now - windowMs contactLimiter_options < t) log.

(** Modelled from the spec: the windowing algorithm of [rateLimit], which
    belongs to the express-rate-limit package and is not among the sources.
    The spec describes a sliding-window counter keyed by client network
    address that accepts at most [max] requests per [windowMs] and rejects
    further ones; the options are those of lines 12-16. The result tells
    whether the request may pass. *)
Definition contactLimiter (now : Z) (addr : string) (h : gmap string (list Z))
  : bool * gmap string (list Z) :=
  let log := recent now (default [] (h !! addr)) in
  if bool_decide (Z.of_nat (length log) < max contactLimiter_options)
  then (true, <[addr := now :: log]> h)
  else (false, <[addr := log]> h).

(** Modelled from the spec: the answer of the limiter to a request it
    rejects, status 429 with the fixed message of line 15. *)
Definition limited : Response :=
  {| statusCode := 429;
     body := TextBody (message contactLimiter_options) |}.

(** ** POST /submit (lines 89-184) *)

Record Request := {
  req_ip : string;
  req_body : gmap string string;
  (** clock reading taken by the limiter *)
  t_arrival : Z;
  (** [Date.now()] of line 104 *)
  t_id : Z;
  (** [new Date()] of line 111 *)
  t_date : Z
}.

Definition validation_failed (es : list Chain.Error) : Response :=
  {| statusCode := 400;
     body := JsonBody
       {| success := false;
          res_message := "Validation failed";
          errors := Some (map (fun err =>
                        {| field := Chain.err_path err;
                           fe_message := Chain.err_msg err |})
                      (Chain.onlyFirstError es));
          data := None;
          res_error := None |} |}.

Definition from_header (env : gmap string string) : string :=
  String.concat "" [
    dq; or_default (env !! "EMAIL_FROM_NAME") "Company Support"; dq;
    " <"; show (env !! "EMAIL_USER"); ">"].

(** The handler up to its [await] on the two sends: validation result,
    construction and insertion of the submission, rendering, and the two
    [sendMail] calls, neither of which waits for the other. *)
Definition submit_begin (env : gmap string string) (req : Request)
    (st : State) : State * list Output :=
  let '(body', es) := Chain.run_all contactValidationRules (req_body req) in
  match es with
  | _ :: _ => (st, [Respond (validation_failed es)])
  | [] =>
      let name_ := show (body' !! "name") in
      let email_ := show (body' !! "email") in
      let phone_ := body' !! "phone" in
      let submissionId := pretty (t_id req) in
      let submission :=
        {| id := submissionId;
           name := name_;
           email := email_;
           phone := if truthy phone_ then phone_ else None;
           date := t_date req;
           status := pending;
           ip := req_ip req;
           error := None |} in
      let l := length (heap st) in
      let adminEmail := generateAdminEmail submission in
      let userEmail := generateUserEmail env submission in
      let admin :=
        {| mail_from := from_header env;
           mail_to := "emotionease@gmail.com";
           mail_subject := "New Contact Submission from " +:+ name_;
           mail_html := adminEmail;
           mail_priority := Some "high" |} in
      let user :=
        {| mail_from := from_header env;
           mail_to := email_;
           mail_subject :=
             or_default (env !! "USER_EMAIL_SUBJECT") "Thank you for contacting us";
           mail_html := userEmail;
           mail_priority := None |} in
      ({| heap := (heap st ++ [submission])%list;
          submissions := <[submissionId := l]> (submissions st);
          inflight := {[l]} ∪ inflight st;
          hits := hits st |},
       [SendMail admin; SendMail user])
  end.

(** Lines 143-149: the user send carries its own [catch], so the combined
    promise rejects exactly when the admin send does. *)
Definition await_sends (admin user : SendResult) : SendResult :=
  promise_all [admin; catch_logged user].

(** The handler after the sends have settled, for the submission object at
    location [l]. *)
Definition submit_settle (env : gmap string string) (l : nat)
    (admin user : SendResult) (st : State) : option (State * list Output) :=
  if bool_decide (l ∈ inflight st) then
    sub ← heap st !! l;
    match await_sends admin user with
    | Sent =>
        let sub' := set_status completed sub in
        Some ({| heap := <[l := sub']> (heap st);
                 submissions := <[id sub := l]> (submissions st);
                 inflight := inflight st ∖ {[l]};
                 hits := hits st |},
              [Respond
                 {| statusCode := 200;
                    body := JsonBody
                      {| success := true;
                         res_message :=
                           "Thank you for contacting us! We will get back to you soon.";
                         errors := None;
                         data := Some {| data_id := id sub;
                                         data_name := name sub';
                                         data_email := email sub' |};
                         res_error := None |} |}])
    | SendError msg =>
        let sub' := set_error msg (set_status failed sub) in
        let credentials := includes msg "credentials" in
        let statusCode_ := if credentials then 503 else 500 in
        let userMessage :=
          if credentials then "Service temporarily unavailable"
          else "Failed to process your submission. Please try again later." in
        Some ({| heap := <[l := sub']> (heap st);
                 submissions := <[id sub := l]> (submissions st);
                 inflight := inflight st ∖ {[l]};
                 hits := hits st |},
              [Respond
                 {| statusCode := statusCode_;
                    body := JsonBody
                      {| success := false;
                         res_message := userMessage;
                         errors := None;
                         data := None;
                         res_error :=
                           if bool_decide (env !! "NODE_ENV" = Some "development")
                           then Some msg else None |} |}])
    end
  else None.

(** The route: limiter, then the validation chains and the handler. *)
Definition submit (env : gmap string string) (req : Request) (st : State)
  : State * list Output :=
  let '(pass, hits') := contactLimiter (t_arrival req) (req_ip req) (hits st) in
  let st1 := {| heap := heap st; submissions := submissions st;
                inflight := inflight st; hits := hits' |} in
  if pass then submit_begin env req st1
  else (st1, [Respond limited]).

(** ** The server as a transition system *)

Inductive Event :=
| Submit (req : Request)
| Settle (l : nat) (admin user : SendResult)
| Sweep (now : Z).

Definition step (env : gmap string string) (e : Event) (st : State)
  : option (State * list Output) :=
  match e with
  | Submit req => Some (submit env req st)
  | Settle l admin user => submit_settle env l admin user st
  | Sweep now => Some (sweep now st, [])
  end.

Fixpoint run (env : gmap string string) (evs : list Event) (st : State)
  : option (State * list Output) :=
  match evs with
  | [] => Some (st, [])
  | e :: rest =>
      '(st1, out1) ← step env e st;
      '(st2, out2) ← run env rest st1;
      Some (st2, (out1 ++ out2)%list)
  end.

(** States the server can be in. *)
Inductive reachable (env : gmap string string) : State -> Prop :=
| reachable_init : reachable env init
| reachable_step st e st' out :
    reachable env st -> step env e st = Some (st', out) ->
    reachable env st'.

(** Every suspended handler holds an object of the heap that is still
    [pending], and every entry of the map leads to an object that carries
    the entry's key as its id. *)
Definition consistent (st : State) : Prop :=
  (forall l, l ∈ inflight st ->
     exists sub, heap st !! l = Some sub /\ status sub = pending) /\
  (forall k l, submissions st !! k = Some l ->
     exists sub, heap st !! l = Some sub /\ id sub = k).

End Route.
End SubdomainContact.

(** * src/unnamed/part_002: the earlier sub-domain contact router *)

Module Part002.

Record Submission := {
  id : string;
  name : string;
  email : string;
  phone : option string;
  date : Z;
  status : Status
}.

Definition set_status (s : Status) (sub : Submission) : Submission :=
  {| id := id sub; name := name sub; email := email sub; phone := phone sub;
     date := date sub; status := s |}.

(** ** createTransporter (lines 12-28) *)

Record TransportConfig := {
  service : string;
  auth_user : string;
  auth_pass : string;
  pool : bool;
  rateLimit : bool;
  maxConnections : Z;
  maxMessages : Z
}.

Inductive Thrown := Error (msg : string).

Definition createTransporter (env : gmap string string)
  : Thrown + TransportConfig :=
  if negb (JS.truthy (env !! "EMAIL_USER")) || negb (JS.truthy (env !! "EMAIL_PASS"))
  then inl (Error "Email credentials not configured")
  else inr {| service := "gmail";
              auth_user := JS.show (env !! "EMAIL_USER");
              auth_pass := JS.show (env !! "EMAIL_PASS");
              pool := true;
              rateLimit := true;
              maxConnections := 1;
              maxMessages := 5 |}.

Section Route.
Context `{Host}.
Import JS.

(** ** Template generators (lines 143-209) *)

Definition generateAdminEmail (submission : Submission) : string :=
  String.concat "" [
    "
    <!DOCTYPE html>
    <html>
    <head>
      <style>
        body { font-family: Arial, sans-serif; line-height: 1.6; color: #333; }
        .container { max-width: 600px; margin: 0 auto; padding: 20px; }
        .header { color: #28a745; border-bottom: 1px solid #eee; padding-bottom: 10px; }
        .footer { margin-top: 20px; font-size: 0.9em; color: #777; }
        .info { margin: 15px 0; }
      </style>
    </head>
    <body>
      <div class=";
    dq;
    "container";
    dq;
    ">
        <h2 class=";
    dq;
    "header";
    dq;
    ">New Contact Submission</h2>
        <div class=";
    dq;
    "info";
    dq;
    ">
          <p><strong>Name:</strong> ";
    name submission;
    "</p>
          <p><strong>Email:</strong> <a href=";
    dq;
    "mailto:";
    email submission;
    dq;
    ">";
    email submission;
    "</a></p>
          ";
    (if JS.truthy (phone submission) then
      String.concat "" ["<p><strong>Phone:</strong> <a href=";
      dq;
      "tel:";
      JS.keep (fun a => JS.is_digit a || Ascii.eqb a "+") (JS.show (phone submission));
      dq;
      ">";
      JS.show (phone submission);
      "</a></p>"]
     else "");
    "
          <p><strong>Date:</strong> ";
    toLocaleString (date submission);
    "</p>
          <p><strong>Reference ID:</strong> ";
    id submission;
    "</p>
        </div>
        <p>Please respond to this inquiry within 24 hours.</p>
        <div class=";
    dq;
    "footer";
    dq;
    ">
          <p>This is an automated message. Please do not reply directly to this email.</p>
        </div>
      </div>
    </body>
    </html>
  "].

Definition generateUserEmail (submission : Submission) : string :=
  String.concat "" [
    "
    <!DOCTYPE html>
    <html>
    <head>
      <style>
        body { font-family: Arial, sans-serif; line-height: 1.6; color: #333; }
        .container { max-width: 600px; margin: 0 auto; padding: 20px; }
        .header { color: #28a745; border-bottom: 1px solid #eee; padding-bottom: 10px; }
        .footer { margin-top: 20px; font-size: 0.9em; color: #777; }
      </style>
    </head>
    <body>
      <div class=";
    dq;
    "container";
    dq;
    ">
        <h2 class=";
    dq;
    "header";
    dq;
    ">Thank You for Contacting Us</h2>
        <p>Dear ";
    name submission;
    ",</p>
        <p>We've received your message and our team will review it shortly. Here's a summary of your submission:</p>
        
        <ul>
          <li><strong>Reference ID:</strong> ";
    id submission;
    "</li>
          <li><strong>Submitted:</strong> ";
    toLocaleString (date submission);
    "</li>
        </ul>
        
        <p>We typically respond within 24 hours. If you have urgent inquiries, please call our support line.</p>
        
        <div class=";
    dq;
    "footer";
    dq;
    ">
          <p>Best regards,<br>The Company Team</p>
          <p><small>This is an automated message. Please do not reply directly to this email.</small></p>
        </div>
      </div>
    </body>
    </html>
  "].


(** ** Validation rules (lines 33-52) *)

Definition phone_char (a : ascii) : bool :=
  is_digit a || Ascii.eqb a "+" || Ascii.eqb a "(" || Ascii.eqb a ")" ||
  Ascii.eqb a " " || Ascii.eqb a "-".

Definition contactValidationRules : list Chain.t := [
  {| Chain.path := "name"; Chain.optional := false;
     Chain.items := [
       Chain.Check Validator.notEmpty "Name is required";
       Chain.Sanitize trim;
       Chain.Sanitize Validator.escape;
       Chain.Check (isLength 0 (Some 100%nat))
         "Name must be less than 100 characters" ] |};
  {| Chain.path := "email"; Chain.optional := false;
     Chain.items := [
       Chain.Check Validator.notEmpty "Email is required";
       Chain.Check isEmail "Email is invalid";
       Chain.Sanitize normalizeEmail;
       Chain.Check (isLength 0 (Some 255%nat))
         "Email must be less than 255 characters" ] |};
  {| Chain.path := "phone"; Chain.optional := true;
     Chain.items := [
       Chain.Sanitize trim;
       Chain.Sanitize Validator.escape;
       Chain.Check (isLength 0 (Some 20%nat))
         "Phone must be less than 20 characters";
       Chain.Check (Validator.all_in phone_char)
         "Phone contains invalid characters" ] |}
].

(** ** Responses *)

Record ResponseData := {
  data_id : string;
  data_name : string;
  data_email : string
}.

Record Json := {
  success : bool;
  res_message : option string;
  errors : option (list Chain.Error);
  data : option ResponseData;
  res_error : option string
}.

Record Response := {
  statusCode : Z;
  body : Json
}.

Inductive Output :=
| Respond (r : Response)
| SendMail (m : MailOptions).

(** ** Process state *)

(** Where a handler is suspended: at the [await] of line 82, holding the
    two documents it has rendered, or at the [await] of line 109. *)
Inductive Phase :=
| Rendered (adminEmailHtml userEmailHtml : string)
| Sending.

Record State := {
  (** submission objects, by location *)
  heap : list Submission;
  (** [const submissions = []]: the array of pushed objects *)
  submissions : list nat;
  (** suspended handlers, by the location of their [submission] object *)
  inflight : gmap nat Phase
}.

Definition init : State :=
  {| heap := []; submissions := []; inflight := ∅ |}.

(** ** POST /submit (lines 55-140) *)

Record Request := {
  req_body : gmap string string;
  (** [Date.now()] of line 68 *)
  t_id : Z;
  (** [new Date()] of line 72 *)
  t_date : Z
}.

(** Lines 56-85: validation result, construction of the submission, the
    push and the rendering. *)
Definition submit_begin (req : Request) (st : State) : State * list Output :=
  let '(body', es) := Chain.run_all contactValidationRules (req_body req) in
  match es with
  | _ :: _ =>
      (st, [Respond
              {| statusCode := 400;
                 body := {| success := false;
                            res_message := None;
                            errors := Some (Chain.onlyFirstError es);
                            data := None;
                            res_error := None |} |}])
  | [] =>
      let phone_ := body' !! "phone" in
      let submission :=
        {| id := pretty (t_id req);
           name := show (body' !! "name");
           email := show (body' !! "email");
           phone := if truthy phone_ then phone_ else None;
           date := t_date req;
           status := pending |} in
      let l := length (heap st) in
      ({| heap := (heap st ++ [submission])%list;
          submissions := (submissions st ++ [l])%list;
          inflight :=
            <[l := Rendered (generateAdminEmail submission)
                            (generateUserEmail submission)]> (inflight st) |},
       [])
  end.

(** The [catch] block (lines 126-139), for the object at [l]. *)
Definition submit_catch (env : gmap string string) (l : nat)
    (sub : Submission) (msg : string) (st : State) : State * list Output :=
  let credentials := includes msg "credentials" in
  let statusCode_ := if credentials then 500 else 500 in
  ({| heap := <[l := set_status failed sub]> (heap st);
      submissions := submissions st;
      inflight := delete l (inflight st) |},
   [Respond
      {| statusCode := statusCode_;
         body :=
           {| success := false;
              res_message := Some
                (if credentials then "Service temporarily unavailable"
                 else "Failed to process your submission. Please try again later.");
              errors := None;
              data := None;
              res_error :=
                if bool_decide (env !! "NODE_ENV" = Some "development")
                then Some msg else None |} |}]).

(** Lines 87-112: the admin address check and the two [sendMail] calls,
    neither of which waits for the other. *)
Definition submit_dispatch (env : gmap string string) (l : nat) (st : State)
  : option (State * list Output) :=
  phase ← inflight st !! l;
  sub ← heap st !! l;
  match phase with
  | Sending => None
  | Rendered adminEmailHtml userEmailHtml =>
      if negb (truthy (env !! "ADMIN_EMAIL"))
      then Some (submit_catch env l sub "Admin email not configured" st)
      else
        let from_ := String.concat "" [
          dq; "Company Support"; dq; " <"; show (env !! "EMAIL_USER"); ">"] in
        Some ({| heap := heap st;
                 submissions := submissions st;
                 inflight := <[l := Sending]> (inflight st) |},
              [SendMail {| mail_from := from_;
                           mail_to := show (env !! "ADMIN_EMAIL");
                           mail_subject := "New Contact Submission from " +:+ name sub;
                           mail_html := adminEmailHtml;
                           mail_priority := Some "high" |};
               SendMail {| mail_from := from_;
                           mail_to := email sub;
                           mail_subject := "Thank you for contacting us";
                           mail_html := userEmailHtml;
                           mail_priority := None |}])
  end.

(** Lines 109-112: no send has a [catch] of its own; the combined promise
    rejects with whichever rejection comes first. *)
Definition await_sends (admin user : SendResult) (user_first : bool)
  : SendResult :=
  promise_all (if user_first then [user; admin] else [admin; user]).

(** Lines 114-139, once the sends have settled. *)
Definition submit_settle (env : gmap string string) (l : nat)
    (admin user : SendResult) (user_first : bool) (st : State)
  : option (State * list Output) :=
  phase ← inflight st !! l;
  sub ← heap st !! l;
  match phase with
  | Rendered _ _ => None
  | Sending =>
      match await_sends admin user user_first with
      | Sent =>
          let sub' := set_status completed sub in
          Some ({| heap := <[l := sub']> (heap st);
                   submissions := submissions st;
                   inflight := delete l (inflight st) |},
                [Respond
                   {| statusCode := 200;
                      body :=
                        {| success := true;
                           res_message := Some
                             "Thank you for contacting us! We will get back to you soon.";
                           errors := None;
                           data := Some {| data_id := id sub';
                                           data_name := name sub';
                                           data_email := email sub' |};
                           res_error := None |} |}])
      | SendError msg => Some (submit_catch env l sub msg st)
      end
  end.

(** ** The router as a transition system *)

Inductive Event :=
| Submit (req : Request)
| Resume (l : nat)
| Settle (l : nat) (admin user : SendResult) (user_first : bool).

Definition step (env : gmap string string) (e : Event) (st : State)
  : option (State * list Output) :=
  match e with
  | Submit req => Some (submit_begin req st)
  | Resume l => submit_dispatch env l st
  | Settle l admin user user_first => submit_settle env l admin user user_first st
  end.

Fixpoint run (env : gmap string string) (evs : list Event) (st : State)
  : option (State * list Output) :=
  match evs with
  | [] => Some (st, [])
  | e :: rest =>
      '(st1, out1) ← step env e st;
      '(st2, out2) ← run env rest st1;
      Some (st2, (out1 ++ out2)%list)
  end.

(** States the router can be in. *)
Inductive reachable (env : gmap string string) : State -> Prop :=
| reachable_init : reachable env init
| reachable_step st e st' out :
    reachable env st -> step env e st = Some (st', out) ->
    reachable env st'.

(** Every suspended handler holds an object of the heap that is still
    [pending] and that the array contains; the array holds heap objects. *)
Definition consistent (st : State) : Prop :=
  (forall l phase, inflight st !! l = Some phase ->
     l ∈ submissions st /\
     exists sub, heap st !! l = Some sub /\ status sub = pending) /\
  (forall l, l ∈ submissions st -> is_Some (heap st !! l)).

(** The four shapes a step of the router can have: nothing stored, a new
    pending object, a handler moving on to its sends, a handler
    finishing. *)
Inductive step_shape (st st' : State) : Prop :=
| shape_same :
    heap st' = heap st -> submissions st' = submissions st ->
    inflight st' = inflight st -> step_shape st st'
| shape_insert sub a u :
    heap st' = (heap st ++ [sub])%list ->
    submissions st' = (submissions st ++ [length (heap st)])%list ->
    inflight st' = <[length (heap st) := Rendered a u]> (inflight st) ->
    status sub = pending -> step_shape st st'
| shape_sending l a u :
    inflight st !! l = Some (Rendered a u) ->
    heap st' = heap st -> submissions st' = submissions st ->
    inflight st' = <[l := Sending]> (inflight st) -> step_shape st st'
| shape_finish l phase sub sub' :
    inflight st !! l = Some phase -> heap st !! l = Some sub ->
    heap st' = <[l := sub']> (heap st) ->
    submissions st' = submissions st ->
    inflight st' = delete l (inflight st) ->
    status sub' = completed \/ status sub' = failed ->
    step_shape st st'.

End Route.
End Part002.

(** * src/unnamed/part_000: the contact router *)

Module Part000.

Record Submission := {
  id : Z;
  name : string;
  email : string;
  phone : option string;
  category : string;
  age : option string;
  message : string;
  date : Z
}.

(** ** The transport (lines 12-18) *)

Record TransportConfig := {
  service : string;
  auth_user : option string;
  auth_pass : option string
}.

Definition transporter (env : gmap string string) : TransportConfig :=
  {| service := "gmail";
     auth_user := env !! "EMAIL_USER";
     auth_pass := env !! "EMAIL_PASS" |}.

Section Route.
Context `{Host}.
Import JS.

(** ** Template generators (lines 110-339) *)

Definition generateAdminEmail (now : Z) (submission : Submission) : string :=
  String.concat "" [
    "
    <!DOCTYPE html>
    <html lang=";
    dq;
    "en";
    dq;
    ">
    <head>
      <meta charset=";
    dq;
    "UTF-8";
    dq;
    ">
      <meta name=";
    dq;
    "viewport";
    dq;
    " content=";
    dq;
    "width=device-width, initial-scale=1.0";
    dq;
    ">
      <title>New Contact Submission</title>
      <link href=";
    dq;
    "https://cdn.jsdelivr.net/npm/bootstrap@5.3.0/dist/css/bootstrap.min.css";
    dq;
    " rel=";
    dq;
    "stylesheet";
    dq;
    ">
      <style>
        .email-container {
          max-width: 600px;
          margin: 0 auto;
          font-family: 'Segoe UI', Tahoma, Geneva, Verdana, sans-serif;
        }
        .header {
          background-color: #4a76a8;
          color: white;
          padding: 20px;
          border-radius: 5px 5px 0 0;
        }
        .content {
          padding: 20px;
          background-color: #f8f9fa;
          border-radius: 0 0 5px 5px;
        }
        .detail-item {
          margin-bottom: 15px;
        }
        .message-box {
          background-color: white;
          border-left: 4px solid #4a76a8;
          padding: 15px;
          margin: 15px 0;
        }
        .footer {
          margin-top: 20px;
          padding-top: 20px;
          border-top: 1px solid #dee2e6;
          font-size: 0.9em;
          color: #6c757d;
        }
      </style>
    </head>
    <body>
      <div class=";
    dq;
    "email-container";
    dq;
    ">
        <div class=";
    dq;
    "header text-center";
    dq;
    ">
          <h2>New Contact Form Submission</h2>
          <p class=";
    dq;
    "mb-0";
    dq;
    ">EmotionEase Support</p>
        </div>
        
        <div class=";
    dq;
    "content";
    dq;
    ">
          <div class=";
    dq;
    "alert alert-primary";
    dq;
    " role=";
    dq;
    "alert";
    dq;
    ">
            <strong>Action Required:</strong> Please respond to this inquiry within 24-48 hours.
          </div>
          
          <div class=";
    dq;
    "card mb-4";
    dq;
    ">
            <div class=";
    dq;
    "card-header bg-light";
    dq;
    ">
              <h5 class=";
    dq;
    "mb-0";
    dq;
    ">Submission Details</h5>
            </div>
            <div class=";
    dq;
    "card-body";
    dq;
    ">
              <table class=";
    dq;
    "table table-bordered";
    dq;
    ">
                <tbody>
                  <tr>
                    <th scope=";
    dq;
    "row";
    dq;
    " style=";
    dq;
    "width: 30%";
    dq;
    ">Name</th>
                    <td>";
    name submission;
    "</td>
                  </tr>
                  <tr>
                    <th scope=";
    dq;
    "row";
    dq;
    " style=";
    dq;
    "width: 30%";
    dq;
    "Age</th>
                    <td>";
    JS.show (age submission);
    "</td>
                  </tr>
                  <tr>
                    <th scope=";
    dq;
    "row";
    dq;
    ">Email</th>
                    <td><a href=";
    dq;
    "mailto:";
    email submission;
    dq;
    ">";
    email submission;
    "</a></td>
                  </tr>
                  ";
    (if JS.truthy (phone submission) then
      String.concat "" ["
                  <tr>
                    <th scope=";
      dq;
      "row";
      dq;
      ">Phone</th>
                    <td><a href=";
      dq;
      "tel:";
      JS.show (phone submission);
      dq;
      ">";
      JS.show (phone submission);
      "</a></td>
                  </tr>
                  "]
     else "");
    "
                  <tr>
                    <th scope=";
    dq;
    "row";
    dq;
    ">Category</th>
                    <td><span class=";
    dq;
    "badge bg-info";
    dq;
    ">";
    category submission;
    "</span></td>
                  </tr>

                  <tr>
                    <th scope=";
    dq;
    "row";
    dq;
    ">Date</th>
                    <td>";
    toLocaleString (date submission);
    "</td>
                  </tr>
                </tbody>
              </table>
            </div>
          </div>
          
          <div class=";
    dq;
    "card";
    dq;
    ">
            <div class=";
    dq;
    "card-header bg-light";
    dq;
    ">
              <h5 class=";
    dq;
    "mb-0";
    dq;
    ">Message</h5>
            </div>
            <div class=";
    dq;
    "card-body message-box";
    dq;
    ">
              <p>";
    JS.replaceAll JS.nl_char "<br>" (message submission);
    "</p>
            </div>
          </div>
          
          <div class=";
    dq;
    "text-center mt-4";
    dq;
    ">
            <a href=";
    dq;
    "mailto:";
    email submission;
    dq;
    " class=";
    dq;
    "btn btn-primary";
    dq;
    ">Reply to ";
    name submission;
    "</a>
          </div>
          
          <div class=";
    dq;
    "footer text-center";
    dq;
    ">
            <p>&copy; ";
    getFullYear now;
    " EmotionEase. All rights reserved.</p>
          </div>
        </div>
      </div>
    </body>
    </html>
  "].

Definition generateUserEmail (now : Z) (submission : Submission) : string :=
  String.concat "" [
    "
    <!DOCTYPE html>
    <html lang=";
    dq;
    "en";
    dq;
    ">
    <head>
      <meta charset=";
    dq;
    "UTF-8";
    dq;
    ">
      <meta name=";
    dq;
    "viewport";
    dq;
    " content=";
    dq;
    "width=device-width, initial-scale=1.0";
    dq;
    ">
      <title>Thank You for Contacting Us</title>
      <link href=";
    dq;
    "https://cdn.jsdelivr.net/npm/bootstrap@5.3.0/dist/css/bootstrap.min.css";
    dq;
    " rel=";
    dq;
    "stylesheet";
    dq;
    ">
      <style>
        .email-container {
          max-width: 600px;
          margin: 0 auto;
          font-family: 'Segoe UI', Tahoma, Geneva, Verdana, sans-serif;
        }
        .header {
          background-color: #4a76a8;
          color: white;
          padding: 20px;
          border-radius: 5px 5px 0 0;
        }
        .content {
          padding: 20px;
          background-color: #f8f9fa;
          border-radius: 0 0 5px 5px;
        }
        .message-box {
          background-color: white;
          border-left: 4px solid #4a76a8;
          padding: 15px;
          margin: 15px 0;
        }
        .footer {
          margin-top: 20px;
          padding-top: 20px;
          border-top: 1px solid #dee2e6;
          font-size: 0.9em;
          color: #6c757d;
        }
      </style>
    </head>
    <body>
      <div class=";
    dq;
    "email-container";
    dq;
    ">
        <div class=";
    dq;
    "header text-center";
    dq;
    ">
          <h2>Thank You for Contacting EmotionEase</h2>
          <p class=";
    dq;
    "mb-0";
    dq;
    ">We appreciate you reaching out to us</p>
        </div>
        
        <div class=";
    dq;
    "content";
    dq;
    ">
          <div class=";
    dq;
    "alert alert-success";
    dq;
    " role=";
    dq;
    "alert";
    dq;
    ">
            <h4 class=";
    dq;
    "alert-heading";
    dq;
    ">Hello, ";
    name submission;
    "!</h4>
            <p>We've received your message regarding <strong>";
    category submission;
    "</strong> and our team will get back to you soon.</p>
          </div>
          
          <div class=";
    dq;
    "card mb-4";
    dq;
    ">
            <div class=";
    dq;
    "card-header bg-light";
    dq;
    ">
              <h5 class=";
    dq;
    "mb-0";
    dq;
    ">Your Submission Details</h5>
            </div>
            <div class=";
    dq;
    "card-body";
    dq;
    ">
              <table class=";
    dq;
    "table table-bordered";
    dq;
    ">
                <tbody>
                  <tr>
                    <th scope=";
    dq;
    "row";
    dq;
    " style=";
    dq;
    "width: 30%";
    dq;
    ">Reference ID</th>
                    <td>";
    pretty (id submission);
    "</td>
                  </tr>
                  <tr>
                    <th scope=";
    dq;
    "row";
    dq;
    ">Category</th>
                    <td><span class=";
    dq;
    "badge bg-info";
    dq;
    ">";
    category submission;
    "</span></td>
                  </tr>
                  <tr>
                    <th scope=";
    dq;
    "row";
    dq;
    ">Age</th>
                    <td><span class=";
    dq;
    "badge bg-info";
    dq;
    ">";
    JS.show (age submission);
    "</span></td>
                  </tr>
                  <tr>
                    <th scope=";
    dq;
    "row";
    dq;
    ">Date Submitted</th>
                    <td>";
    toLocaleString (date submission);
    "</td>
                  </tr>
                </tbody>
              </table>
            </div>
          </div>
          
          <div class=";
    dq;
    "card";
    dq;
    ">
            <div class=";
    dq;
    "card-header bg-light";
    dq;
    ">
              <h5 class=";
    dq;
    "mb-0";
    dq;
    ">Your Message</h5>
            </div>
            <div class=";
    dq;
    "card-body message-box";
    dq;
    ">
              <p>";
    JS.replaceAll JS.nl_char "<br>" (message submission);
    "</p>
            </div>
          </div>
          
          <div class=";
    dq;
    "mt-4";
    dq;
    ">
            <h5>What Happens Next?</h5>
            <ol>
              <li>Our team will review your message</li>
              <li>We'll respond to you within 1-2 business days</li>
              <li>For urgent matters, please call our support line</li>
            </ol>
          </div>
          
          <div class=";
    dq;
    "footer text-center";
    dq;
    ">
            <p>This is an automated confirmation. Please do not reply to this email.</p>
            <p>Need immediate assistance? <a href=";
    dq;
    "mailto:support@emotionease.in";
    dq;
    ">Contact our support team</a></p>
            <p>&copy; ";
    getFullYear now;
    " EmotionEase. All rights reserved.</p>
          </div>
        </div>
      </div>
    </body>
    </html>
  "].


(** ** Validation rules (lines 21-29) *)

Definition contactValidationRules : list Chain.t := [
  {| Chain.path := "name"; Chain.optional := false;
     Chain.items := [
       Chain.Check Validator.notEmpty "Name is required";
       Chain.Sanitize trim;
       Chain.Sanitize Validator.escape ] |};
  {| Chain.path := "email"; Chain.optional := false;
     Chain.items := [
       Chain.Check Validator.notEmpty "Email is required";
       Chain.Check isEmail "Email is invalid";
       Chain.Sanitize normalizeEmail ] |};
  {| Chain.path := "category"; Chain.optional := false;
     Chain.items := [
       Chain.Check Validator.notEmpty "Category is required";
       Chain.Sanitize trim;
       Chain.Sanitize Validator.escape ] |};
  {| Chain.path := "message"; Chain.optional := false;
     Chain.items := [
       Chain.Check Validator.notEmpty "Message is required";
       Chain.Sanitize trim;
       Chain.Sanitize Validator.escape ] |}
].

(** ** Responses *)

Inductive Data :=
| One (submission : Submission)
| Many (submissions : list Submission).

Record Json := {
  success : bool;
  res_message : option string;
  errors : option (list Chain.Error);
  count : option nat;
  data : option Data;
  res_error : option string
}.

Record Response := {
  statusCode : Z;
  body : Json
}.

Inductive Output :=
| Respond (r : Response)
| SendMail (m : MailOptions).

(** ** Process state *)

(** Where a handler is suspended: on the admin send (holding the user
    message it has prepared) or on the user send. *)
Inductive Phase :=
| AwaitAdmin (user : MailOptions)
| AwaitUser.

Record State := {
  (** [let submissions = []]; the objects are never modified after the
      push, so the array is kept by value *)
  submissions : list Submission;
  (** suspended handlers, by the array index of their submission *)
  inflight : gmap nat Phase
}.

Definition init : State := {| submissions := []; inflight := ∅ |}.

(** ** POST /submit (lines 32-98) *)

Record Request := {
  req_body : gmap string string;
  (** [Date.now()] of line 45 *)
  t_id : Z;
  (** [new Date()] of line 52 *)
  t_date : Z;
  (** [new Date()] of the two template footers *)
  t_render : Z
}.

Definition submit_begin (env : gmap string string) (req : Request)
    (st : State) : State * list Output :=
  let '(body', es) := Chain.run_all contactValidationRules (req_body req) in
  match es with
  | _ :: _ =>
      (st, [Respond
              {| statusCode := 400;
                 body := {| success := false;
                            res_message := None;
                            errors := Some es;
                            count := None;
                            data := None;
                            res_error := None |} |}])
  | [] =>
      let phone_ := body' !! "phone" in
      let submission :=
        {| id := t_id req;
           name := show (body' !! "name");
           email := show (body' !! "email");
           phone := if truthy phone_ then phone_ else None;
           category := show (body' !! "category");
           age := body' !! "age";
           message := show (body' !! "message");
           date := t_date req |} in
      let i := length (submissions st) in
      let adminEmailHtml := generateAdminEmail (t_render req) submission in
      let userEmailHtml := generateUserEmail (t_render req) submission in
      let from_ := String.concat "" [
        dq; "EmotionEase Support"; dq; " <"; show (env !! "EMAIL_USER"); ">"] in
      let adminMailOptions :=
        {| mail_from := from_;
           mail_to := "emotionease@gmail.com";
           mail_subject := "New Contact Form Submission - " +:+ category submission;
           mail_html := adminEmailHtml;
           mail_priority := None |} in
      let userMailOptions :=
        {| mail_from := from_;
           mail_to := email submission;
           mail_subject := "Thank you for contacting EmotionEase";
           mail_html := userEmailHtml;
           mail_priority := None |} in
      ({| submissions := (submissions st ++ [submission])%list;
          inflight := <[i := AwaitAdmin userMailOptions]> (inflight st) |},
       [SendMail adminMailOptions])
  end.

(** The [catch] block (lines 90-97). *)
Definition submit_catch (msg : string) : Response :=
  {| statusCode := 500;
     body := {| success := false;
                res_message := Some "Form submitted but failed to send confirmation email";
                errors := None;
                count := None;
                data := None;
                res_error := Some msg |} |}.

(** A send of the handler of submission [i] settles. *)
Definition submit_settle (i : nat) (res : SendResult) (st : State)
  : option (State * list Output) :=
  phase ← inflight st !! i;
  submission ← submissions st !! i;
  match res, phase with
  | SendError msg, _ =>
      Some ({| submissions := submissions st;
               inflight := delete i (inflight st) |},
            [Respond (submit_catch msg)])
  | Sent, AwaitAdmin userMailOptions =>
      Some ({| submissions := submissions st;
               inflight := <[i := AwaitUser]> (inflight st) |},
            [SendMail userMailOptions])
  | Sent, AwaitUser =>
      Some ({| submissions := submissions st;
               inflight := delete i (inflight st) |},
            [Respond
               {| statusCode := 200;
                  body := {| success := true;
                             res_message := Some
                               "Thank you for contacting us! We will get back to you soon.";
                             errors := None;
                             count := None;
                             data := Some (One submission);
                             res_error := None |} |}])
  end.

(** ** GET /submissions (lines 101-107) *)

Definition get_submissions (st : State) : Response :=
  {| statusCode := 200;
     body := {| success := true;
                res_message := None;
                errors := None;
                count := Some (length (submissions st));
                data := Some (Many (submissions st));
                res_error := None |} |}.

End Route.
End Part000.

(** * routes/SignUp.js: the signup router (lines 1-121) *)

Module SignUp.

Record Signup := {
  id : Z;
  name : string;
  email : string;
  phone : string;
  date : Z;
  source : string
}.

(** ** The transport (lines 13-19) *)

Record TransportConfig := {
  service : string;
  auth_user : option string;
  auth_pass : option string
}.

Inductive Thrown := Error (msg : string).

(** The module-level [nodemailer.createTransport({...})]: the two
    credentials are read from the environment and stored as they are. *)
Definition transporter (env : gmap string string)
  : Thrown + TransportConfig :=
  inr {| service := "gmail";
         auth_user := env !! "EMAIL_USER";
         auth_pass := env !! "EMAIL_PASS" |}.

(** ** GET / (lines 115-121) *)

Record Listing := {
  statusCode : Z;
  success : bool;
  count : nat;
  data : list Signup
}.

Definition get_signups (signups : list Signup) : Listing :=
  {| statusCode := 200;
     success := true;
     count := length signups;
     data := signups |}.

End SignUp.

(** * Vocabulary of the properties *)

(** The order of the submission lifecycle: a status stays as it is or
    leaves [pending] for one of the two final statuses. *)
Definition forward (a b : Status) : Prop :=
  a = b \/ (a = pending /\ (b = completed \/ b = failed)).

(** A dispatch failure is configuration-related when its message mentions
    credentials, which is how the handlers tell. *)
Definition configuration_related (msg : string) : bool :=
  JS.includes msg "credentials".

(** The answer of SubdomainContact.js to a dispatch that failed with
    message [msg] (lines 173-182). *)
Definition SubdomainContact_failure (env : gmap string string) (msg : string)
  : SubdomainContact.Response :=
  {| SubdomainContact.statusCode :=
       if configuration_related msg then 503 else 500;
     SubdomainContact.body := SubdomainContact.JsonBody
       {| SubdomainContact.success := false;
          SubdomainContact.res_message :=
            if configuration_related msg
            then "Service temporarily unavailable"
            else "Failed to process your submission. Please try again later.";
          SubdomainContact.errors := None;
          SubdomainContact.data := None;
          SubdomainContact.res_error :=
            if bool_decide (env !! "NODE_ENV" = Some "development")
            then Some msg else None |} |}.

(** Observers of a run of SubdomainContact.js, for the rate limit. *)
Module Traffic.
Import SubdomainContact.

(** Arrival times of the requests of a run. *)
Definition arrivals (evs : list Event) : list Z :=
  omap (fun e => match e with
                 | Submit req => Some (t_arrival req)
                 | _ => None
                 end) evs.

(** Whether the limiter lets the request through in state [st]. *)
Definition passes (req : Request) (st : State) : bool :=
  (contactLimiter (t_arrival req) (req_ip req) (hits st)).1.

(** Address and arrival time of the requests of a run that the limiter
    lets through, in order of arrival. *)
Fixpoint passed `{Host} (env : gmap string string) (evs : list Event)
    (st : State) : list (string * Z) :=
  match evs with
  | [] => []
  | e :: rest =>
      match step env e st with
      | None => []
      | Some (st1, _) =>
          match e with
          | Submit req =>
              if passes req st
              then (req_ip req, t_arrival req) :: passed env rest st1
              else passed env rest st1
          | _ => passed env rest st1
          end
      end
  end.

(** What the limiter remembers about [addr] in state [st]. *)
Definition logged (st : State) (addr : string) : list Z :=
  default [] (hits st !! addr).

(** The times of a list that lie in the window of length [windowMs] that
    starts at [t]. *)
Definition window (t : Z) (log : list Z) : list Z :=
  filter (fun u => t <= u /\ u < t + windowMs contactLimiter_options) log.

(** Entries of a log that belong to [addr] and lie in [lo, hi). *)
Definition within (addr : string) (lo hi : Z) (log : list (string * Z))
  : list (string * Z) :=
  filter (fun p : string * Z => p.1 = addr /\ lo <= p.2 /\ p.2 < hi) log.

End Traffic.

Module Examples.

(** White space among the ASCII characters. *)
Definition ascii_space (a : ascii) : bool :=
  let n := nat_of_ascii a in
  ((9 <=? n)%nat && (n <=? 13)%nat) || (n =? 32)%nat.

Fixpoint ltrim (s : string) : string :=
  match s with
  | String a s' => if ascii_space a then ltrim s' else s
  | EmptyString => EmptyString
  end.

Fixpoint rtrim (s : string) : string :=
  match s with
  | EmptyString => EmptyString
  | String a s' =>
      match rtrim s' with
      | EmptyString => if ascii_space a then EmptyString else String a EmptyString
      | r => String a r
      end
  end.

(** A host for concrete runs on ASCII texts: dates print as their
    millisecond count, every text with an at-sign is an e-mail address,
    normalisation changes nothing, and white space and length are those of
    ASCII. *)
Definition host : Host := {|
  toLocaleString := pretty;
  getFullYear := fun _ => "2024";
  isEmail := fun s => JS.occurs "@" s;
  normalizeEmail := fun s => s;
  trim := fun s => rtrim (ltrim s);
  isLength := fun min max s =>
    (min <=? String.length s)%nat &&
    match max with
    | Some m => (String.length s <=? m)%nat
    | None => true
    end;
  allSpaceOr := fun p s => Validator.all_in (fun a => ascii_space a || p a) s
|}.

Definition script : string := "<script>alert(1)</script>".

(** A part_002 submission whose handler has issued its two sends. *)
Definition sub002 : Part002.Submission :=
  {| Part002.id := "1700000000000";
     Part002.name := "Ann";
     Part002.email := "ann@example.com";
     Part002.phone := None;
     Part002.date := 1700000000000;
     Part002.status := pending |}.

Definition sending002 : Part002.State :=
  {| Part002.heap := [sub002];
     Part002.submissions := [0%nat];
     Part002.inflight := {[ 0%nat := Part002.Sending ]} |}.

(** The request and the environment that lead to [sending002]. *)
Definition request002 : Part002.Request :=
  {| Part002.req_body :=
       <["name" := "Ann"]> (<["email" := "ann@example.com"]> ∅);
     Part002.t_id := 1700000000000;
     Part002.t_date := 1700000000000 |}.

Definition env002 : gmap string string :=
  <["EMAIL_USER" := "mailer@example.com"]>
    (<["EMAIL_PASS" := "secret"]>
      (<["ADMIN_EMAIL" := "admin@example.com"]> ∅)).

(** A request to SubdomainContact.js. *)
Definition request : SubdomainContact.Request :=
  {| SubdomainContact.req_ip := "203.0.113.7";
     SubdomainContact.req_body :=
       <["name" := "Ann"]> (<["email" := "ann@example.com"]> ∅);
     SubdomainContact.t_arrival := 1700000000000;
     SubdomainContact.t_id := 1700000000000;
     SubdomainContact.t_date := 1700000000000 |}.

(** Contact-router submissions that carry markup in the name and in the
    phone field. *)
Definition markup_name000 : Part000.Submission :=
  {| Part000.id := 1700000000000;
     Part000.name := script;
     Part000.email := "ann@example.com";
     Part000.phone := None;
     Part000.category := "general";
     Part000.age := None;
     Part000.message := "hello";
     Part000.date := 1700000000000 |}.

Definition markup_phone000 : Part000.Submission :=
  {| Part000.id := 1700000000000;
     Part000.name := "Ann";
     Part000.email := "ann@example.com";
     Part000.phone := Some script;
     Part000.category := "general";
     Part000.age := None;
     Part000.message := "hello";
     Part000.date := 1700000000000 |}.

(** The request body that produces [markup_phone000]. *)
Definition markup_request000 : Part000.Request :=
  {| Part000.req_body :=
       <["name" := "Ann"]> (<["email" := "ann@example.com"]>
       (<["category" := "general"]> (<["message" := "hello"]>
       (<["phone" := script]> ∅))));
     Part000.t_id := 1700000000000;
     Part000.t_date := 1700000000000;
     Part000.t_render := 1700000000000 |}.

Definition markup_sub : SubdomainContact.Submission :=
  {| SubdomainContact.id := "1700000000000";
     SubdomainContact.name := script;
     SubdomainContact.email := "ann@example.com";
     SubdomainContact.phone := Some "+1 (555) 0100";
     SubdomainContact.date := 1700000000000;
     SubdomainContact.status := pending;
     SubdomainContact.ip := "203.0.113.7";
     SubdomainContact.error := None |}.

End Examples.

(** * Further vocabulary *)

Module Text.

(** Number of occurrences of a character in a text. *)
Fixpoint count (c : ascii) (s : string) : nat :=
  match s with
  | EmptyString => 0%nat
  | String a s' => ((if Ascii.eqb a c then 1 else 0) + count c s')%nat
  end.

(** The characters that open or close markup and attribute values. *)
Definition markup (c : ascii) : Prop :=
  c = "<"%char \/ c = ">"%char \/ c = JS.dq_char \/ c = "'"%char.

(** The characters [escapeHtml] replaces. *)
Definition special (c : ascii) : Prop :=
  c = "&"%char \/ markup c.

End Text.

(** The contact router of part_000 as a transition system. *)
Module Part000Server.
Import Part000.

Section Route.
Context `{Host}.

Inductive Event :=
| Submit (req : Request)
| Settle (i : nat) (res : SendResult)
| List.

Definition step (env : gmap string string) (e : Event) (st : State)
  : option (State * list Output) :=
  match e with
  | Submit req => Some (submit_begin env req st)
  | Settle i res => submit_settle i res st
  | List => Some (st, [Respond (get_submissions st)])
  end.

Fixpoint run (env : gmap string string) (evs : list Event) (st : State)
  : option (State * list Output) :=
  match evs with
  | [] => Some (st, [])
  | e :: rest =>
      '(st1, out1) ← step env e st;
      '(st2, out2) ← run env rest st1;
      Some (st2, (out1 ++ out2)%list)
  end.

Inductive reachable (env : gmap string string) : State -> Prop :=
| reachable_init : reachable env init
| reachable_step st e st' out :
    reachable env st -> step env e st = Some (st', out) ->
    reachable env st'.

(** Whether the body of a request passes the validation rules. *)
Definition valid (req : Request) : bool :=
  match (Chain.run_all contactValidationRules (req_body req)).2 with
  | [] => true
  | _ :: _ => false
  end.

(** Number of the requests of a run that pass validation. *)
Fixpoint accepted (evs : list Event) : nat :=
  match evs with
  | [] => 0%nat
  | Submit req :: rest => ((if valid req then 1 else 0) + accepted rest)%nat
  | _ :: rest => accepted rest
  end.

(** What a handler suspended on the admin send holds: the confirmation
    for the address stored with its submission. *)
Definition prepared (st : State) : Prop :=
  forall i um, inflight st !! i = Some (AwaitAdmin um) ->
    exists sub, submissions st !! i = Some sub /\
      mail_to um = email sub /\
      mail_subject um = "Thank you for contacting EmotionEase".

End Route.
End Part000Server.

(** What the validation rules of SubdomainContact.js (lines 66-86) require
    of the values they let through. *)
Module Stored.

Definition validated `{Host} (sub : SubdomainContact.Submission) : Prop :=
  Validator.notEmpty (SubdomainContact.name sub) = true /\
  isLength 0 (Some 100%nat) (SubdomainContact.name sub) = true /\
  Validator.notEmpty (SubdomainContact.email sub) = true /\
  isEmail (SubdomainContact.email sub) = true /\
  isLength 0 (Some 255%nat) (SubdomainContact.email sub) = true /\
  match SubdomainContact.phone sub with
  | None => True
  | Some p =>
      p <> "" /\
      isLength 0 (Some 20%nat) p = true /\
      allSpaceOr SubdomainContact.phone_char p = true
  end.

End Stored.

(** * Properties *)

(** ** Strings *)

Section Strings.
Import JS.

Lemma append_cons (a : ascii) (s t : string) :
  String a s +:+ t = String a (s +:+ t).
Proof. reflexivity. Qed.

Lemma append_empty_l (t : string) : "" +:+ t = t.
Proof. reflexivity. Qed.

Lemma append_empty_r (s : string) : s +:+ "" = s.
Proof.
  induction s as [|a s IH]; [reflexivity|].
  rewrite append_cons, IH. reflexivity.
Qed.

Lemma concat_empty_cons (x : string) (xs : list string) :
  String.concat "" (x :: xs) = x +:+ String.concat "" xs.
Proof.
  destruct xs; cbn; [symmetry; apply append_empty_r | reflexivity].
Qed.

Lemma prefix_append (sub s t : string) :
  String.prefix sub s = true -> String.prefix sub (s +:+ t) = true.
Proof.
  revert s. induction sub as [|a sub IH]; intros s Hp;
    [destruct (s +:+ t); reflexivity|].
  destruct s as [|b s]; [discriminate|].
  rewrite append_cons. cbn [String.prefix] in *.
  destruct (ascii_dec a b); [auto | discriminate].
Qed.

Lemma includes_append_l (s t sub : string) :
  includes s sub = true -> includes (s +:+ t) sub = true.
Proof.
  induction s as [|a s IH]; intros Hi.
  - cbn in Hi. rewrite orb_false_r in Hi. destruct sub; [|discriminate].
    rewrite append_empty_l. destruct t; reflexivity.
  - cbn [includes] in Hi. apply orb_true_iff in Hi as [Hp | Hs].
    + pose proof (prefix_append _ _ t Hp) as Hp'.
      rewrite append_cons in *. cbn [includes]. rewrite Hp'. reflexivity.
    + rewrite append_cons. cbn [includes]. rewrite (IH Hs). apply orb_true_r.
Qed.

Lemma includes_append_r (s t sub : string) :
  includes t sub = true -> includes (s +:+ t) sub = true.
Proof.
  intros Hi. induction s as [|a s IH]; [exact Hi|].
  rewrite append_cons. cbn [includes]. rewrite IH. apply orb_true_r.
Qed.

Lemma occurs_append (c : ascii) (s t : string) :
  occurs c (s +:+ t) = occurs c s || occurs c t.
Proof.
  induction s as [|a s IH]; [reflexivity|].
  rewrite append_cons. cbn [occurs]. rewrite IH. apply orb_assoc.
Qed.

(** Replacing every [c] leaves no [c], provided the replacement has none. *)
Lemma replaceAll_removes (c : ascii) (by_ s : string) :
  occurs c by_ = false -> occurs c (replaceAll c by_ s) = false.
Proof.
  intros Hby. induction s as [|a s IH]; cbn [replaceAll]; [reflexivity|].
  destruct (Ascii.eqb a c) eqn:E.
  - rewrite occurs_append, Hby, IH. reflexivity.
  - cbn [occurs]. rewrite E, IH. reflexivity.
Qed.

(** A character that is absent stays absent, provided the replacement does
    not bring it in. *)
Lemma replaceAll_keeps_absent (d c : ascii) (by_ s : string) :
  occurs d by_ = false -> occurs d s = false ->
  occurs d (replaceAll c by_ s) = false.
Proof.
  intros Hby. induction s as [|a s IH]; cbn [replaceAll occurs]; [reflexivity|].
  intros Hs. apply orb_false_iff in Hs as [Ha Hs].
  destruct (Ascii.eqb a c).
  - rewrite occurs_append, Hby, (IH Hs). reflexivity.
  - cbn [occurs]. rewrite Ha, (IH Hs). reflexivity.
Qed.

End Strings.

(** Finds the chunk of a template that contains a given text. *)
Ltac find_chunk :=
  rewrite concat_empty_cons;
  first [ apply includes_append_l; vm_compute; reflexivity
        | apply includes_append_r; find_chunk ].

(** ** Rendering *)

(** [escapeHtml] of SubdomainContact.js leaves none of the characters
    [<], [>], double quote and apostrophe in its result. *)
Lemma escapeHtml_no_markup (unsafe : string) (c : ascii) :
  c = "<"%char \/ c = ">"%char \/ c = JS.dq_char \/ c = "'"%char ->
  JS.occurs c (SubdomainContact.escapeHtml unsafe) = false.
Proof.
  intros Hc. unfold SubdomainContact.escapeHtml.
  destruct (negb (JS.truthy (Some unsafe))); [reflexivity|].
  destruct Hc as [-> | [-> | [-> | ->]]].
  - do 2 (apply replaceAll_keeps_absent; [reflexivity|]).
    apply replaceAll_keeps_absent; [reflexivity|].
    apply replaceAll_removes. reflexivity.
  - do 2 (apply replaceAll_keeps_absent; [reflexivity|]).
    apply replaceAll_removes. reflexivity.
  - apply replaceAll_keeps_absent; [reflexivity|].
    apply replaceAll_removes. reflexivity.
  - apply replaceAll_removes. reflexivity.
Qed.

(** On a name that carries a script element the two generators of
    SubdomainContact.js produce documents without it. *)
Example SubdomainContact_renders_markup_escaped :
  JS.includes
    (@SubdomainContact.generateAdminEmail Examples.host Examples.markup_sub)
    "<script>" = false /\
  JS.includes
    (@SubdomainContact.generateUserEmail Examples.host ∅ Examples.markup_sub)
    "<script>" = false /\
  JS.includes
    (@SubdomainContact.generateAdminEmail Examples.host Examples.markup_sub)
    "&lt;script&gt;alert(1)&lt;/script&gt;" = true.
Proof. vm_compute. repeat split; reflexivity. Qed.

(** C1, evaluated on the contact router of part_000: a name that is a
    script element appears verbatim in the admin notification and in the
    user confirmation, and so does a phone field in the admin notification;
    the generators embed the fields without escaping them. *)
Theorem part000_generators_embed_markup `{Host} (now : Z) :
  JS.includes (Part000.generateAdminEmail now Examples.markup_name000)
              Examples.script = true /\
  JS.includes (Part000.generateUserEmail now Examples.markup_name000)
              Examples.script = true /\
  JS.includes (Part000.generateAdminEmail now Examples.markup_phone000)
              Examples.script = true.
Proof.
  split; [|split].
  - unfold Part000.generateAdminEmail. find_chunk.
  - unfold Part000.generateUserEmail. find_chunk.
  - unfold Part000.generateAdminEmail. find_chunk.
Qed.

(** ** Listing endpoints *)

(** C10: for every state of the store the listing endpoints (GET
    /submissions of the contact router, GET / of the signup router) answer
    200 with [success] true and a [count] equal to the number of elements of
    the returned [data] array. *)
Theorem listing_count_matches_data :
  (forall st : Part000.State,
     let r := Part000.get_submissions st in
     Part000.statusCode r = 200 /\
     Part000.success (Part000.body r) = true /\
     exists xs,
       Part000.data (Part000.body r) = Some (Part000.Many xs) /\
       Part000.count (Part000.body r) = Some (length xs)) /\
  (forall signups : list SignUp.Signup,
     let r := SignUp.get_signups signups in
     SignUp.statusCode r = 200 /\
     SignUp.success r = true /\
     SignUp.count r = length (SignUp.data r)).
Proof.
  split.
  - intros st r. subst r. cbn. repeat split; try reflexivity.
    exists (Part000.submissions st). split; reflexivity.
  - intros signups r. subst r. cbn. repeat split; reflexivity.
Qed.

(** ** Transport construction *)

(** [createTransporter] of SubdomainContact.js refuses an environment that
    lacks a credential, with the configuration error. *)
Lemma SubdomainContact_createTransporter_fails_fast (env : gmap string string) :
  env !! "EMAIL_USER" = None \/ env !! "EMAIL_PASS" = None ->
  SubdomainContact.createTransporter env =
    inl (SubdomainContact.Error "Email credentials not configured").
Proof.
  intros [Hu | Hp]; unfold SubdomainContact.createTransporter.
  - rewrite Hu. reflexivity.
  - rewrite Hp. rewrite orb_true_r. reflexivity.
Qed.

(** So does [createTransporter] of part_002. *)
Lemma Part002_createTransporter_fails_fast (env : gmap string string) :
  env !! "EMAIL_USER" = None \/ env !! "EMAIL_PASS" = None ->
  Part002.createTransporter env =
    inl (Part002.Error "Email credentials not configured").
Proof.
  intros [Hu | Hp]; unfold Part002.createTransporter.
  - rewrite Hu. reflexivity.
  - rewrite Hp. rewrite orb_true_r. reflexivity.
Qed.

(** C8, evaluated on the empty environment: the two [createTransporter]
    functions raise the configuration error, while the module-level
    transport of SignUp.js is constructed, holding two undefined
    credentials, and raises nothing. *)
Theorem signup_transport_built_without_credentials :
  SubdomainContact.createTransporter ∅ =
    inl (SubdomainContact.Error "Email credentials not configured") /\
  Part002.createTransporter ∅ =
    inl (Part002.Error "Email credentials not configured") /\
  SignUp.transporter ∅ =
    inr {| SignUp.service := "gmail";
           SignUp.auth_user := None;
           SignUp.auth_pass := None |}.
Proof. repeat split; reflexivity. Qed.

(** ** Validation chains *)

Section Chains.
Import Chain.

Lemma run_items_path (p : string) (its : list Item) (v : string) (e : Error) :
  e ∈ (run_items p its v).2 -> err_path e = p.
Proof.
  revert v. induction its as [|[test msg|f] rest IH]; intros v; cbn.
  - intros Hin. inversion Hin.
  - destruct (run_items p rest v) as [v' es] eqn:E. cbn.
    specialize (IH v). rewrite E in IH. cbn in IH.
    destruct (test v); [exact IH|].
    intros [-> | Hin]%elem_of_cons; [reflexivity | auto].
  - apply IH.
Qed.

Lemma run_items_sound (p : string) (its : list Item) (v : string) (e : Error) :
  e ∈ (run_items p its v).2 -> fails_from v its (err_msg e).
Proof.
  revert v. induction its as [|[test msg|f] rest IH]; intros v; cbn.
  - intros Hin. inversion Hin.
  - destruct (run_items p rest v) as [v' es] eqn:E. cbn.
    specialize (IH v). rewrite E in IH. cbn in IH.
    destruct (test v) eqn:T.
    + intros Hin. apply ff_next. auto.
    + intros [-> | Hin]%elem_of_cons.
      * apply ff_here. exact T.
      * apply ff_next. auto.
  - intros Hin. apply ff_sanitize. auto.
Qed.

Lemma run_items_complete (p : string) (its : list Item) (v m : string) :
  fails_from v its m -> (run_items p its v).2 <> [].
Proof.
  induction 1 as [v test msg rest T | v test msg rest m _ IH | v f rest m _ IH];
    cbn.
  - destruct (run_items p rest v) as [v' es]. cbn. rewrite T. discriminate.
  - destruct (run_items p rest v) as [v' es]. cbn in *.
    destruct (test v); [exact IH | discriminate].
  - exact IH.
Qed.

(** A chain writes to its own field only. *)
Lemma run_untouched (c : t) (body : gmap string string) (k : string) :
  path c <> k -> (run c body).1 !! k = body !! k.
Proof.
  intros Hk. unfold run.
  destruct (body !! path c) as [v0|].
  - destruct (run_items (path c) (items c) v0). cbn.
    by rewrite lookup_insert_ne.
  - destruct (optional c); [reflexivity|].
    destruct (run_items (path c) (items c) ""). cbn.
    by rewrite lookup_insert_ne.
Qed.

Lemma run_all_untouched (rules : list t) (body : gmap string string) (k : string) :
  (forall c, c ∈ rules -> path c <> k) ->
  (run_all rules body).1 !! k = body !! k.
Proof.
  revert body. induction rules as [|c rest IH]; intros body Hk; [reflexivity|].
  cbn. destruct (run c body) as [body1 es1] eqn:E1.
  destruct (run_all rest body1) as [body2 es2] eqn:E2. cbn.
  specialize (IH body1). rewrite E2 in IH. cbn in IH.
  rewrite IH by (intros c' Hc'; apply Hk; by apply list_elem_of_further).
  pose proof (run_untouched c body k) as Hu. rewrite E1 in Hu. cbn in Hu.
  apply Hu, Hk, list_elem_of_here.
Qed.

Lemma run_sound (c : t) (body : gmap string string) (e : Error) :
  e ∈ (run c body).2 -> err_path e = path c /\ rejects c body (err_msg e).
Proof.
  unfold run, rejects. destruct (body !! path c) as [v0|].
  - pose proof (run_items_path (path c) (items c) v0 e) as Hp.
    pose proof (run_items_sound (path c) (items c) v0 e) as Hs.
    destruct (run_items (path c) (items c) v0). cbn in *. auto.
  - destruct (optional c); [intros Hin; inversion Hin|].
    pose proof (run_items_path (path c) (items c) "" e) as Hp.
    pose proof (run_items_sound (path c) (items c) "" e) as Hs.
    destruct (run_items (path c) (items c) ""). cbn in *. auto.
Qed.

Lemma run_complete (c : t) (body : gmap string string) (m : string) :
  rejects c body m -> (run c body).2 <> [].
Proof.
  unfold run, rejects. destruct (body !! path c) as [v0|].
  - intros Hf. pose proof (run_items_complete (path c) _ _ _ Hf) as Hc.
    destruct (run_items (path c) (items c) v0). exact Hc.
  - intros [-> Hf]. pose proof (run_items_complete (path c) _ _ _ Hf) as Hc.
    destruct (run_items (path c) (items c) ""). exact Hc.
Qed.

Lemma rejects_ext (c : t) (body body' : gmap string string) (m : string) :
  body' !! path c = body !! path c -> rejects c body m -> rejects c body' m.
Proof. unfold rejects. intros ->. auto. Qed.

(** With one chain per field, the collected errors are exactly the
    rejections of the request body by the rules. *)
Lemma run_all_sound (rules : list t) (body : gmap string string) (e : Error) :
  NoDup (path <$> rules) ->
  e ∈ (run_all rules body).2 ->
  exists c, c ∈ rules /\ err_path e = path c /\ rejects c body (err_msg e).
Proof.
  revert body. induction rules as [|c rest IH]; intros body Hnd; cbn.
  - intros Hin. inversion Hin.
  - destruct (run c body) as [body1 es1] eqn:E1.
    destruct (run_all rest body1) as [body2 es2] eqn:E2. cbn.
    apply NoDup_cons in Hnd as [Hc Hnd].
    intros [Hin | Hin]%elem_of_app.
    + pose proof (run_sound c body e) as Hs. rewrite E1 in Hs.
      destruct (Hs Hin) as [Hp Hr]. exists c. split; [apply list_elem_of_here | auto].
    + specialize (IH body1 Hnd). rewrite E2 in IH.
      destruct (IH Hin) as (c' & Hc' & Hp & Hr).
      exists c'. split; [by apply list_elem_of_further|]. split; [exact Hp|].
      apply (rejects_ext c' body1); [|exact Hr].
      pose proof (run_untouched c body (path c')) as Hu. rewrite E1 in Hu.
      symmetry. apply Hu. intros Heq. apply Hc. rewrite Heq.
      by apply list_elem_of_fmap_2.
Qed.

Lemma run_all_complete (rules : list t) (body : gmap string string)
    (c : t) (m : string) :
  NoDup (path <$> rules) -> c ∈ rules -> rejects c body m ->
  (run_all rules body).2 <> [].
Proof.
  revert body. induction rules as [|c0 rest IH]; intros body Hnd Hin Hr.
  - inversion Hin.
  - cbn. destruct (run c0 body) as [body1 es1] eqn:E1.
    destruct (run_all rest body1) as [body2 es2] eqn:E2. cbn.
    apply NoDup_cons in Hnd as [Hc Hnd].
    apply elem_of_cons in Hin as [-> | Hin].
    + pose proof (run_complete c0 body m Hr) as Hne. rewrite E1 in Hne.
      cbn in Hne. destruct es1; [done | discriminate].
    + assert (rejects c body1 m) as Hr1.
      { apply (rejects_ext c body); [|exact Hr].
        pose proof (run_untouched c0 body (path c)) as Hu. rewrite E1 in Hu.
        apply Hu. intros Heq. apply Hc. rewrite Heq.
        by apply list_elem_of_fmap_2. }
      specialize (IH body1 Hnd Hin Hr1). rewrite E2 in IH. cbn in IH.
      destruct es1; [exact IH | discriminate].
Qed.

Lemma onlyFirstError_from_subset (seen : list string) (es : list Error) (e : Error) :
  e ∈ onlyFirstError_from seen es -> e ∈ es.
Proof.
  revert seen. induction es as [|e0 rest IH]; intros seen; cbn; [auto|].
  case_bool_decide.
  - intros Hin. apply list_elem_of_further. eauto.
  - intros [-> | Hin]%elem_of_cons; [apply list_elem_of_here|].
    apply list_elem_of_further. eauto.
Qed.

Lemma onlyFirstError_nonempty (es : list Error) :
  es <> [] -> onlyFirstError es <> [].
Proof.
  destruct es as [|e rest]; [done|]. intros _. unfold onlyFirstError. cbn.
  case_bool_decide as Hin; [inversion Hin | discriminate].
Qed.

End Chains.

(** ** Rejected requests *)

Lemma SubdomainContact_rules_distinct `{Host} :
  NoDup (Chain.path <$> SubdomainContact.contactValidationRules).
Proof. cbn. compute_done. Qed.

Lemma Part000_rules_distinct `{Host} :
  NoDup (Chain.path <$> Part000.contactValidationRules).
Proof. cbn. compute_done. Qed.

Lemma Part002_rules_distinct `{Host} :
  NoDup (Chain.path <$> Part002.contactValidationRules).
Proof. cbn. compute_done. Qed.

(** What the handler of SubdomainContact.js answers when [es] is the list of
    collected errors. *)
Lemma SubdomainContact_submit_begin_rejects `{Host} env req st :
  (Chain.run_all SubdomainContact.contactValidationRules
     (SubdomainContact.req_body req)).2 <> [] ->
  SubdomainContact.submit_begin env req st =
    (st, [SubdomainContact.Respond
            (SubdomainContact.validation_failed
               (Chain.run_all SubdomainContact.contactValidationRules
                  (SubdomainContact.req_body req)).2)]).
Proof.
  intros Hne. unfold SubdomainContact.submit_begin.
  destruct (Chain.run_all _ _) as [body' es]. cbn in *.
  destruct es; [done | reflexivity].
Qed.

(** C4: when a validation rule rejects the request body, the handler of
    SubdomainContact.js and the handler of the contact router (part_000)
    answer 400 with a non-empty error list, every entry of which names the
    field of a rule that rejects the body and carries that rule's message;
    the state, and with it the submission store, is returned unchanged and
    no mail is sent. On the route of SubdomainContact.js, where the limiter
    comes first, the store is unchanged as well. *)
Theorem rejected_request_answers_400_and_stores_nothing `{Host}
    (env : gmap string string) :
  (forall (req : SubdomainContact.Request) (st : SubdomainContact.State)
          (c : Chain.t) (m : string),
     c ∈ SubdomainContact.contactValidationRules ->
     Chain.rejects c (SubdomainContact.req_body req) m ->
     (exists es,
        SubdomainContact.submit_begin env req st =
          (st, [SubdomainContact.Respond
                  {| SubdomainContact.statusCode := 400;
                     SubdomainContact.body := SubdomainContact.JsonBody
                       {| SubdomainContact.success := false;
                          SubdomainContact.res_message := "Validation failed";
                          SubdomainContact.errors := Some es;
                          SubdomainContact.data := None;
                          SubdomainContact.res_error := None |} |}]) /\
        es <> [] /\
        forall e, e ∈ es ->
          exists c', c' ∈ SubdomainContact.contactValidationRules /\
                     Chain.path c' = SubdomainContact.field e /\
                     Chain.rejects c' (SubdomainContact.req_body req)
                                   (SubdomainContact.fe_message e)) /\
     SubdomainContact.heap (SubdomainContact.submit env req st).1 =
       SubdomainContact.heap st /\
     SubdomainContact.submissions (SubdomainContact.submit env req st).1 =
       SubdomainContact.submissions st) /\
  (forall (req : Part000.Request) (st : Part000.State)
          (c : Chain.t) (m : string),
     c ∈ Part000.contactValidationRules ->
     Chain.rejects c (Part000.req_body req) m ->
     exists es,
       Part000.submit_begin env req st =
         (st, [Part000.Respond
                 {| Part000.statusCode := 400;
                    Part000.body :=
                      {| Part000.success := false;
                         Part000.res_message := None;
                         Part000.errors := Some es;
                         Part000.count := None;
                         Part000.data := None;
                         Part000.res_error := None |} |}]) /\
       es <> [] /\
       forall e, e ∈ es ->
         exists c', c' ∈ Part000.contactValidationRules /\
                    Chain.path c' = Chain.err_path e /\
                    Chain.rejects c' (Part000.req_body req) (Chain.err_msg e)).
Proof.
  split.
  - intros req st c m Hc Hr.
    pose proof (run_all_complete _ _ c m SubdomainContact_rules_distinct Hc Hr)
      as Hne.
    pose proof (SubdomainContact_submit_begin_rejects env req st Hne) as Hb.
    split; [|].
    + eexists. split; [exact Hb|]. split.
      * intros Hnil. apply fmap_nil_inv in Hnil.
        by apply onlyFirstError_nonempty in Hne.
      * intros e [e0 [-> Hin]]%list_elem_of_fmap_1. cbn.
        apply onlyFirstError_from_subset in Hin.
        destruct (run_all_sound _ _ _ SubdomainContact_rules_distinct Hin)
          as (c' & Hc' & Hp & Hr').
        exists c'. auto.
    + unfold SubdomainContact.submit.
      destruct (SubdomainContact.contactLimiter _ _ _) as [pass hits'].
      destruct pass; [|split; reflexivity].
      rewrite SubdomainContact_submit_begin_rejects by exact Hne.
      split; reflexivity.
  - intros req st c m Hc Hr.
    pose proof (run_all_complete _ _ c m Part000_rules_distinct Hc Hr) as Hne.
    pose proof (run_all_sound Part000.contactValidationRules
                  (Part000.req_body req)) as Hs.
    unfold Part000.submit_begin.
    destruct (Chain.run_all _ _) as [body' es]. cbn in *.
    destruct es as [|e0 es]; [done|].
    eexists. split; [reflexivity|]. split; [discriminate|].
    intros e Hin.
    destruct (Hs e Part000_rules_distinct Hin) as (c' & Hc' & Hp & Hr').
    exists c'. auto.
Qed.

(** The theorem at a request with an empty body, which the name rule
    rejects. *)
Lemma rejected_request_witness :
  exists es,
    @SubdomainContact.submit_begin Examples.host ∅
      {| SubdomainContact.req_ip := "203.0.113.7";
         SubdomainContact.req_body := ∅;
         SubdomainContact.t_arrival := 0;
         SubdomainContact.t_id := 0;
         SubdomainContact.t_date := 0 |}
      SubdomainContact.init =
      (SubdomainContact.init,
       [SubdomainContact.Respond
          {| SubdomainContact.statusCode := 400;
             SubdomainContact.body := SubdomainContact.JsonBody
               {| SubdomainContact.success := false;
                  SubdomainContact.res_message := "Validation failed";
                  SubdomainContact.errors := Some es;
                  SubdomainContact.data := None;
                  SubdomainContact.res_error := None |} |}]) /\
    es <> [].
Proof.
  destruct (@rejected_request_answers_400_and_stores_nothing Examples.host ∅)
    as [Hsub _].
  destruct (Hsub {| SubdomainContact.req_ip := "203.0.113.7";
                    SubdomainContact.req_body := ∅;
                    SubdomainContact.t_arrival := 0;
                    SubdomainContact.t_id := 0;
                    SubdomainContact.t_date := 0 |}
              SubdomainContact.init
              {| Chain.path := "name"; Chain.optional := false;
                 Chain.items := [
                   Chain.Sanitize (@trim Examples.host);
                   Chain.Sanitize Validator.escape;
                   Chain.Check Validator.notEmpty "Name is required";
                   Chain.Check (@isLength Examples.host 0 (Some 100%nat))
                     "Name must be less than 100 characters" ] |}
              "Name is required") as [(es & Hb & Hne & _) _].
  - apply list_elem_of_here.
  - split; [reflexivity|].
    apply Chain.ff_sanitize, Chain.ff_sanitize, Chain.ff_here. reflexivity.
  - exists es. split; [exact Hb | exact Hne].
Defined.

(** ** What reaches the generators of the contact router *)

(** No rule of part_000 names the phone or the age field: the handler
    stores both as the client sent them and renders the admin notification
    from the stored object. *)
Lemma part000_phone_and_age_stored_as_sent `{Host} env req st st' m :
  Part000.submit_begin env req st = (st', [Part000.SendMail m]) ->
  exists sub,
    Part000.submissions st' = (Part000.submissions st ++ [sub])%list /\
    Part000.phone sub =
      (if JS.truthy (Part000.req_body req !! "phone")
       then Part000.req_body req !! "phone" else None) /\
    Part000.age sub = Part000.req_body req !! "age" /\
    mail_html m = Part000.generateAdminEmail (Part000.t_render req) sub.
Proof.
  unfold Part000.submit_begin.
  pose proof (run_all_untouched Part000.contactValidationRules
                (Part000.req_body req)) as Hu.
  destruct (Chain.run_all _ _) as [body' es]. cbn in Hu.
  destruct es as [|e es]; [|discriminate].
  intros [= <- <-]. eexists. cbn.
  split; [reflexivity|].
  assert (forall k, k = "phone" \/ k = "age" ->
            forall c, c ∈ Part000.contactValidationRules -> Chain.path c <> k)
    as Hfree.
  { intros k Hk c Hc. unfold Part000.contactValidationRules in Hc.
    repeat (apply elem_of_cons in Hc as [-> | Hc]);
      try (by apply elem_of_nil in Hc);
      cbn; destruct Hk as [-> | ->]; discriminate. }
  rewrite !(Hu "phone") by (apply Hfree; auto).
  rewrite (Hu "age") by (apply Hfree; auto).
  repeat split; reflexivity.
Qed.

(** On a request whose phone field is a script element the handler of the
    contact router hands the transport an admin notification that contains
    the element as sent. *)
Example part000_markup_request_reaches_admin :
  exists st' m,
    @Part000.submit_begin Examples.host ∅ Examples.markup_request000
      Part000.init = (st', [Part000.SendMail m]) /\
    JS.includes (mail_html m) Examples.script = true.
Proof. eexists _, _. split; vm_compute; reflexivity. Qed.

(** ** The lifecycle order *)

Lemma forward_refl (a : Status) : forward a a.
Proof. by left. Qed.

Lemma forward_trans (a b c : Status) : forward a b -> forward b c -> forward a c.
Proof.
  intros [-> | [-> Hb]] [-> | [Hb' Hc]]; unfold forward; auto.
Qed.

Lemma forward_from_pending (b : Status) : forward pending b.
Proof. destruct b; unfold forward; auto. Qed.

(** ** SubdomainContact.js as a transition system *)

Module SubdomainContactFacts.
Import SubdomainContact.

Section Facts.
Context `{Host}.
Variable env : gmap string string.

(** What an accepted request does to the state. *)
Lemma submit_begin_cases (req : Request) (st : State) :
  (exists r, submit_begin env req st = (st, [Respond r]) /\ statusCode r = 400) \/
  (exists sub admin user,
     submit_begin env req st =
       ({| heap := (heap st ++ [sub])%list;
           submissions := <[id sub := length (heap st)]> (submissions st);
           inflight := {[length (heap st)]} ∪ inflight st;
           hits := hits st |},
        [SendMail admin; SendMail user]) /\
     status sub = pending /\
     id sub = pretty (t_id req) /\
     date sub = t_date req).
Proof.
  unfold submit_begin. destruct (Chain.run_all _ _) as [body' es].
  destruct es as [|e es].
  - right.
    match goal with |- context [(heap st ++ [?s])%list] => exists s end.
    eexists _, _. split; [reflexivity|]. cbn. auto.
  - left. eexists. split; [reflexivity|]. reflexivity.
Qed.

Lemma submit_cases (req : Request) (st : State) :
  heap (submit env req st).1 = heap st /\
  submissions (submit env req st).1 = submissions st /\
  inflight (submit env req st).1 = inflight st \/
  exists sub,
    heap (submit env req st).1 = (heap st ++ [sub])%list /\
    submissions (submit env req st).1 =
      <[id sub := length (heap st)]> (submissions st) /\
    inflight (submit env req st).1 = {[length (heap st)]} ∪ inflight st /\
    status sub = pending.
Proof.
  unfold submit. destruct (contactLimiter _ _ _) as [pass hits'].
  destruct pass; [|left; auto].
  match goal with |- context [submit_begin env req ?s] =>
    destruct (submit_begin_cases req s) as [(r & -> & _) | (sub & a & u & -> & Hs & _)]
  end.
  - left. auto.
  - right. exists sub. cbn. auto.
Qed.

(** What a settled dispatch does to the state. *)
Lemma submit_settle_cases (l : nat) (admin user : SendResult) (st st' : State)
    (out : list Output) :
  submit_settle env l admin user st = Some (st', out) ->
  l ∈ inflight st /\
  exists sub sub',
    heap st !! l = Some sub /\
    heap st' = <[l := sub']> (heap st) /\
    submissions st' = <[id sub := l]> (submissions st) /\
    inflight st' = inflight st ∖ {[l]} /\
    id sub' = id sub /\
    (status sub' = completed \/ status sub' = failed).
Proof.
  unfold submit_settle. case_bool_decide as Hin; [|discriminate].
  destruct (heap st !! l) as [sub|] eqn:Hl; [|discriminate].
  cbn -[await_sends].
  destruct (await_sends admin user); intros [= <- <-]; (split; [exact Hin|]);
    eexists _, _; cbn; repeat split; eauto.
Qed.

Lemma consistent_init : consistent init.
Proof.
  split.
  - intros l Hl. cbn in Hl. set_solver.
  - intros k l Hk. cbn in Hk. by rewrite lookup_empty in Hk.
Qed.

Lemma consistent_step (e : Event) (st st' : State) (out : list Output) :
  consistent st -> step env e st = Some (st', out) -> consistent st'.
Proof.
  intros [Hfl Hmap] Hstep. destruct e as [req | l admin user | now]; cbn in Hstep.
  - injection Hstep as Hst.
    pose proof (submit_cases req st) as Hc. rewrite Hst in Hc. cbn in Hc.
    destruct Hc as [(Hh & Hs & Hi) | (sub & Hh & Hs & Hi & Hp)].
    + split.
      * intros l. rewrite Hi, Hh. apply Hfl.
      * intros k l. rewrite Hs, Hh. apply Hmap.
    + split.
      * intros l. rewrite Hi, Hh. intros [Hl | Hl]%elem_of_union.
        -- apply elem_of_singleton in Hl as ->. exists sub.
           split; [|exact Hp]. rewrite lookup_app_r by lia.
           by rewrite Nat.sub_diag.
        -- destruct (Hfl l Hl) as (s & Hs' & Hst').
           exists s. split; [|exact Hst']. by apply lookup_app_l_Some.
      * intros k l. rewrite Hs, Hh. rewrite lookup_insert.
        case_decide as Hk.
        -- intros [= <-]. exists sub. split; [|exact Hk].
           rewrite lookup_app_r by lia. by rewrite Nat.sub_diag.
        -- intros Hl. destruct (Hmap k l Hl) as (s & Hs' & Hid).
           exists s. split; [|exact Hid]. by apply lookup_app_l_Some.
  - apply submit_settle_cases in Hstep
      as (Hin & sub & sub' & Hl & Hh & Hs & Hi & Hid & Hst).
    assert (l < length (heap st))%nat as Hlt by (by eapply lookup_lt_Some).
    split.
    + intros l'. rewrite Hi, Hh. intros [Hl' Hne]%elem_of_difference.
      assert (l <> l') as Hneq by set_solver.
      rewrite list_lookup_insert_ne by exact Hneq. by apply Hfl.
    + intros k l'. rewrite Hs, Hh. rewrite lookup_insert.
      case_decide as Hk.
      * intros [= <-]. exists sub'. split; [|congruence].
        by apply list_lookup_insert_eq.
      * intros Hl'. destruct (Hmap k l' Hl') as (s & Hs' & Hid').
        destruct (decide (l = l')) as [<- | Hneq].
        -- exists sub'. split; [by apply list_lookup_insert_eq|]. congruence.
        -- exists s. split; [|exact Hid'].
           by rewrite list_lookup_insert_ne.
  - injection Hstep as <- _. split; cbn.
    + exact Hfl.
    + intros k l [Hl _]%map_lookup_filter_Some. by apply Hmap.
Qed.

Lemma reachable_consistent (st : State) : reachable env st -> consistent st.
Proof.
  induction 1 as [| st e st' out _ IH Hstep];
    [apply consistent_init | by eapply consistent_step].
Qed.

Lemma run_reachable (evs : list Event) (st st' : State) (out : list Output) :
  reachable env st -> run env evs st = Some (st', out) -> reachable env st'.
Proof.
  revert st out. induction evs as [|e evs IH]; intros st out Hr; cbn.
  - intros [= <- _]. exact Hr.
  - destruct (step env e st) as [[st1 out1]|] eqn:Hs; [|discriminate]. cbn.
    destruct (run env evs st1) as [[st2 out2]|] eqn:Hrun; [|discriminate]. cbn.
    intros [= <- _]. eapply IH; [|exact Hrun].
    by eapply reachable_step.
Qed.

(** One step moves the status of every object forward, and the objects it
    creates are pending. *)
Lemma step_forward (e : Event) (st st' : State) (out : list Output) :
  consistent st -> step env e st = Some (st', out) ->
  (forall l sub, heap st !! l = Some sub ->
     exists sub', heap st' !! l = Some sub' /\
                  forward (status sub) (status sub')) /\
  (forall l sub', heap st !! l = None -> heap st' !! l = Some sub' ->
     status sub' = pending /\ submissions st' !! id sub' = Some l).
Proof.
  intros [Hfl Hmap] Hstep. destruct e as [req | l admin user | now]; cbn in Hstep.
  - injection Hstep as Hst.
    pose proof (submit_cases req st) as Hc. rewrite Hst in Hc. cbn in Hc.
    destruct Hc as [(Hh & Hs & Hi) | (sub & Hh & Hs & Hi & Hp)]; rewrite Hh.
    + split.
      * intros l s Hl. exists s. split; [exact Hl | apply forward_refl].
      * intros l s Hn Hl. congruence.
    + split.
      * intros l s Hl. exists s. split; [|apply forward_refl].
        by apply lookup_app_l_Some.
      * intros l s Hn Hl. apply lookup_ge_None in Hn.
        apply lookup_app_Some in Hl as [Hl | [_ Hl]].
        -- apply lookup_lt_Some in Hl. lia.
        -- apply list_lookup_singleton_Some in Hl as [Hz <-].
           split; [exact Hp|]. rewrite Hs.
           replace l with (length (heap st)) by lia.
           apply lookup_insert_eq.
  - apply submit_settle_cases in Hstep
      as (Hin & sub & sub' & Hl & Hh & Hs & Hi & Hid & Hst).
    assert (l < length (heap st))%nat as Hlt by (by eapply lookup_lt_Some).
    destruct (Hfl l Hin) as (s0 & Hs0 & Hpend).
    assert (s0 = sub) as -> by congruence.
    rewrite Hh. split.
    + intros l' s Hl'. destruct (decide (l = l')) as [<- | Hneq].
      * exists sub'. split; [by apply list_lookup_insert_eq|].
        assert (s = sub) as -> by congruence.
        rewrite Hpend. apply forward_from_pending.
      * exists s. split; [by rewrite list_lookup_insert_ne | apply forward_refl].
    + intros l' s Hn Hl'. apply lookup_ge_None in Hn.
      apply lookup_lt_Some in Hl'. rewrite length_insert in Hl'. lia.
  - injection Hstep as <- _. cbn. split.
    + intros l s Hl. exists s. split; [exact Hl | apply forward_refl].
    + intros l s Hn Hl. congruence.
Qed.

Lemma run_forward (evs : list Event) (st st' : State) (out : list Output) :
  consistent st -> run env evs st = Some (st', out) ->
  forall l sub, heap st !! l = Some sub ->
    exists sub', heap st' !! l = Some sub' /\ forward (status sub) (status sub').
Proof.
  revert st out. induction evs as [|e evs IH]; intros st out Hc; cbn.
  - intros [= <- _] l sub Hl. exists sub. split; [exact Hl | apply forward_refl].
  - destruct (step env e st) as [[st1 out1]|] eqn:Hs; [|discriminate]. cbn.
    destruct (run env evs st1) as [[st2 out2]|] eqn:Hrun; [|discriminate]. cbn.
    intros [= <- _] l sub Hl.
    destruct (step_forward e st st1 out1 Hc Hs) as [Hf _].
    destruct (Hf l sub Hl) as (sub1 & Hl1 & Hf1).
    destruct (IH st1 out2 (consistent_step _ _ _ _ Hc Hs) Hrun l sub1 Hl1)
      as (sub2 & Hl2 & Hf2).
    exists sub2. split; [exact Hl2 | by eapply forward_trans].
Qed.

End Facts.
End SubdomainContactFacts.

(** ** The router of part_002 as a transition system *)

Module Part002Facts.
Import Part002.

Section Facts.
Context `{Host}.
Variable env : gmap string string.

Lemma submit_catch_shape (l : nat) (phase : Phase) (sub : Submission)
    (msg : string) (st : State) :
  forall st' out,
  inflight st !! l = Some phase -> heap st !! l = Some sub ->
  submit_catch env l sub msg st = (st', out) -> step_shape st st'.
Proof.
  intros st' out Hi Hl [= <- _].
  apply (shape_finish st _ l phase sub (set_status failed sub));
    auto; reflexivity.
Qed.

Lemma step_has_shape (e : Event) (st st' : State) (out : list Output) :
  step env e st = Some (st', out) -> step_shape st st'.
Proof.
  destruct e as [req | l | l admin user user_first]; cbn [step].
  - intros [= Hst]. unfold submit_begin in Hst.
    destruct (Chain.run_all _ _) as [body' es].
    destruct es as [|e es]; injection Hst as <- _.
    + eapply shape_insert; reflexivity.
    + apply shape_same; reflexivity.
  - unfold submit_dispatch.
    destruct (inflight st !! l) as [phase|] eqn:Hi; [|discriminate].
    destruct (heap st !! l) as [sub|] eqn:Hl; [|discriminate].
    cbn -[submit_catch].
    destruct phase as [a u|]; [|discriminate].
    destruct (negb _).
    + intros Hst. apply (inj Some) in Hst.
      by eapply submit_catch_shape.
    + intros [= <- _]. eapply shape_sending; eauto.
  - unfold submit_settle.
    destruct (inflight st !! l) as [phase|] eqn:Hi; [|discriminate].
    destruct (heap st !! l) as [sub|] eqn:Hl; [|discriminate].
    cbn -[submit_catch await_sends].
    destruct phase as [a u|]; [discriminate|].
    destruct (await_sends admin user user_first) as [|msg].
    + intros [= <- _].
      apply (shape_finish st _ l Sending sub (set_status completed sub));
        auto; reflexivity.
    + intros Hst. apply (inj Some) in Hst.
      by eapply submit_catch_shape.
Qed.

Lemma consistent_init002 : consistent init.
Proof.
  split.
  - intros l phase Hl. cbn in Hl. by rewrite lookup_empty in Hl.
  - intros l Hl. cbn in Hl. by apply elem_of_nil in Hl.
Qed.

Lemma consistent_shape002 (st st' : State) :
  consistent st -> step_shape st st' -> consistent st'.
Proof.
  intros [Hfl Harr] [Hh Hs Hi | sub a u Hh Hs Hi Hp | l a u Hl Hh Hs Hi
                     | l phase sub sub' Hl Hsub Hh Hs Hi Hst].
  - split.
    + intros l phase. rewrite Hi, Hs, Hh. apply Hfl.
    + intros l. rewrite Hs, Hh. apply Harr.
  - split.
    + intros l phase. rewrite Hi, Hs, Hh. rewrite lookup_insert.
      case_decide as Hk.
      * intros _. subst l. split; [apply elem_of_app; right; apply list_elem_of_here|].
        exists sub. split; [|exact Hp].
        rewrite lookup_app_r by lia. by rewrite Nat.sub_diag.
      * intros Hl. destruct (Hfl l phase Hl) as (Hin & s & Hs' & Hst).
        split; [apply elem_of_app; by left|].
        exists s. split; [|exact Hst]. by apply lookup_app_l_Some.
    + intros l. rewrite Hs, Hh. intros [Hl | Hl]%elem_of_app.
      * destruct (Harr l Hl) as [s Hs']. exists s. by apply lookup_app_l_Some.
      * apply list_elem_of_singleton in Hl as ->. exists sub.
        rewrite lookup_app_r by lia. by rewrite Nat.sub_diag.
  - split.
    + intros l' phase. rewrite Hi, Hs, Hh. rewrite lookup_insert.
      case_decide as Hk.
      * intros _. subst l'. by eapply Hfl.
      * apply Hfl.
    + intros l'. rewrite Hs, Hh. apply Harr.
  - assert (l < length (heap st))%nat as Hlt by (by eapply lookup_lt_Some).
    split.
    + intros l' phase'. rewrite Hi, Hs, Hh.
      intros [Hne Hl']%lookup_delete_Some.
      rewrite list_lookup_insert_ne by exact Hne. by eapply Hfl.
    + intros l'. rewrite Hs, Hh. intros Hl'.
      destruct (decide (l = l')) as [<- | Hne].
      * exists sub'. by apply list_lookup_insert_eq.
      * rewrite list_lookup_insert_ne by exact Hne. by apply Harr.
Qed.

Lemma consistent_step002 (e : Event) (st st' : State) (out : list Output) :
  consistent st -> step env e st = Some (st', out) -> consistent st'.
Proof.
  intros Hc Hs. eapply consistent_shape002; [exact Hc|]. by eapply step_has_shape.
Qed.

Lemma reachable_consistent002 (st : State) : reachable env st -> consistent st.
Proof.
  induction 1 as [| st e st' out _ IH Hstep];
    [apply consistent_init002 | by eapply consistent_step002].
Qed.

Lemma run_reachable002 (evs : list Event) (st st' : State) (out : list Output) :
  reachable env st -> run env evs st = Some (st', out) -> reachable env st'.
Proof.
  revert st out. induction evs as [|e evs IH]; intros st out Hr; cbn [run].
  - intros [= <- _]. exact Hr.
  - destruct (step env e st) as [[st1 out1]|] eqn:Hs; [|discriminate].
    cbn -[run step].
    destruct (run env evs st1) as [[st2 out2]|] eqn:Hrun; [|discriminate].
    cbn -[run step].
    intros [= <- _]. eapply IH; [|exact Hrun].
    by eapply reachable_step.
Qed.

Lemma shape_forward002 (st st' : State) :
  consistent st -> step_shape st st' ->
  (forall l sub, heap st !! l = Some sub ->
     exists sub', heap st' !! l = Some sub' /\
                  forward (status sub) (status sub')) /\
  (forall l sub', heap st !! l = None -> heap st' !! l = Some sub' ->
     status sub' = pending /\ l ∈ submissions st').
Proof.
  intros [Hfl Harr] [Hh Hs Hi | sub a u Hh Hs Hi Hp | l a u Hl Hh Hs Hi
                     | l phase sub sub' Hl Hsub Hh Hs Hi Hst]; rewrite Hh.
  - split.
    + intros l s Hl. exists s. split; [exact Hl | apply forward_refl].
    + intros l s Hn Hl. congruence.
  - split.
    + intros l s Hl. exists s. split; [|apply forward_refl].
      by apply lookup_app_l_Some.
    + intros l s Hn Hl. apply lookup_ge_None in Hn.
      apply lookup_app_Some in Hl as [Hl | [_ Hl]].
      * apply lookup_lt_Some in Hl. lia.
      * apply list_lookup_singleton_Some in Hl as [Hz <-].
        split; [exact Hp|]. rewrite Hs.
        replace l with (length (heap st)) by lia.
        apply elem_of_app. right. apply list_elem_of_here.
  - split.
    + intros l' s Hl'. exists s. split; [exact Hl' | apply forward_refl].
    + intros l' s Hn Hl'. congruence.
  - assert (l < length (heap st))%nat as Hlt by (by eapply lookup_lt_Some).
    destruct (Hfl l phase Hl) as (_ & s0 & Hs0 & Hpend).
    assert (s0 = sub) as -> by congruence.
    split.
    + intros l' s Hl'. destruct (decide (l = l')) as [<- | Hneq].
      * exists sub'. split; [by apply list_lookup_insert_eq|].
        assert (s = sub) as -> by congruence.
        rewrite Hpend. apply forward_from_pending.
      * exists s. split; [by rewrite list_lookup_insert_ne | apply forward_refl].
    + intros l' s Hn Hl'. apply lookup_ge_None in Hn.
      apply lookup_lt_Some in Hl'. rewrite length_insert in Hl'. lia.
Qed.

Lemma run_forward002 (evs : list Event) (st st' : State) (out : list Output) :
  consistent st -> run env evs st = Some (st', out) ->
  forall l sub, heap st !! l = Some sub ->
    exists sub', heap st' !! l = Some sub' /\ forward (status sub) (status sub').
Proof.
  revert st out. induction evs as [|e evs IH]; intros st out Hc; cbn [run].
  - intros [= <- _] l sub Hl. exists sub. split; [exact Hl | apply forward_refl].
  - destruct (step env e st) as [[st1 out1]|] eqn:Hs; [|discriminate].
    cbn -[run step].
    destruct (run env evs st1) as [[st2 out2]|] eqn:Hrun; [|discriminate].
    cbn -[run step].
    intros [= <- _] l sub Hl.
    destruct (shape_forward002 st st1 Hc (step_has_shape _ _ _ _ Hs)) as [Hf _].
    destruct (Hf l sub Hl) as (sub1 & Hl1 & Hf1).
    destruct (IH st1 out2 (consistent_step002 _ _ _ _ Hc Hs) Hrun l sub1 Hl1)
      as (sub2 & Hl2 & Hf2).
    exists sub2. split; [exact Hl2 | by eapply forward_trans].
Qed.

(** A handler that waits at its first [await] holds the two documents
    generated from its own submission object. *)
Lemma rendered_documents (st : State) :
  reachable env st ->
  forall l a u, inflight st !! l = Some (Rendered a u) ->
    exists sub, heap st !! l = Some sub /\
                a = generateAdminEmail sub /\ u = generateUserEmail sub.
Proof.
  induction 1 as [| st e st' out Hreach IH Hstep].
  - intros l a u Hl. cbn [inflight init] in Hl. by rewrite lookup_empty in Hl.
  - destruct e as [req | l0 | l0 admin user user_first]; cbn [step] in Hstep.
    + injection Hstep as Hst. unfold submit_begin in Hst.
      destruct (Chain.run_all _ _) as [body' es].
      destruct es as [|e es]; injection Hst as <- _; [|exact IH].
      intros l a u. cbn [inflight heap]. rewrite lookup_insert.
      case_decide as Hk.
      * intros Heq. apply (inj Some) in Heq. injection Heq as <- <-. subst l.
        match goal with |- context [(heap st ++ [?s])%list] => exists s end.
        split; [|split; reflexivity].
        rewrite lookup_app_r by lia. by rewrite Nat.sub_diag.
      * intros Hl. destruct (IH l a u Hl) as (sub & Hs & Ha & Hu).
        exists sub. split; [by apply lookup_app_l_Some | auto].
    + unfold submit_dispatch in Hstep.
      destruct (inflight st !! l0) as [phase|] eqn:Hi; [|discriminate].
      destruct (heap st !! l0) as [sub0|] eqn:Hl0; [|discriminate].
      cbn [mbind option_bind] in Hstep.
      destruct phase as [a0 u0|]; [|discriminate].
      destruct (negb _).
      * apply (inj Some) in Hstep. unfold submit_catch in Hstep.
        injection Hstep as <- _.
        intros l a u. cbn [inflight heap].
        intros [Hne Hl]%lookup_delete_Some.
        rewrite list_lookup_insert_ne by exact Hne. by apply IH.
      * injection Hstep as <- _. intros l a u. cbn [inflight heap].
        rewrite lookup_insert.
        case_decide as Hk; [discriminate|]. apply IH.
    + unfold submit_settle in Hstep.
      destruct (inflight st !! l0) as [phase|] eqn:Hi; [|discriminate].
      destruct (heap st !! l0) as [sub0|] eqn:Hl0; [|discriminate].
      cbn [mbind option_bind] in Hstep.
      destruct phase as [a0 u0|]; [discriminate|].
      destruct (await_sends admin user user_first) as [|msg].
      * injection Hstep as <- _.
        intros l a u. cbn [inflight heap].
        intros [Hne Hl]%lookup_delete_Some.
        rewrite list_lookup_insert_ne by exact Hne. by apply IH.
      * apply (inj Some) in Hstep. unfold submit_catch in Hstep.
        injection Hstep as <- _.
        intros l a u. cbn [inflight heap].
        intros [Hne Hl]%lookup_delete_Some.
        rewrite list_lookup_insert_ne by exact Hne. by apply IH.
Qed.

End Facts.
End Part002Facts.

(** ** Dispatch outcomes *)

(** The state [Examples.sending002] is the one the router of part_002 is in
    after it has accepted [Examples.request002] and issued the two sends. *)
Example sending002_is_reached :
  fst <$> @Part002.run Examples.host Examples.env002
            [Part002.Submit Examples.request002; Part002.Resume 0]
            Part002.init
  = Some Examples.sending002.
Proof. vm_compute. reflexivity. Qed.

Section Dispatch.
Context `{Host}.
Variable env : gmap string string.

Lemma SubdomainContact_settle_failure (l : nat) (admin user : SendResult)
    (msg : string) (st : SubdomainContact.State) (sub : SubdomainContact.Submission) :
  l ∈ SubdomainContact.inflight st ->
  SubdomainContact.heap st !! l = Some sub ->
  SubdomainContact.await_sends admin user = SendError msg ->
  SubdomainContact.submit_settle env l admin user st =
    Some ({| SubdomainContact.heap :=
               <[l := SubdomainContact.set_error msg
                        (SubdomainContact.set_status failed sub)]>
                 (SubdomainContact.heap st);
             SubdomainContact.submissions :=
               <[SubdomainContact.id sub := l]> (SubdomainContact.submissions st);
             SubdomainContact.inflight := SubdomainContact.inflight st ∖ {[l]};
             SubdomainContact.hits := SubdomainContact.hits st |},
          [SubdomainContact.Respond (SubdomainContact_failure env msg)]).
Proof.
  intros Hin Hl Ha. unfold SubdomainContact.submit_settle.
  rewrite bool_decide_eq_true_2 by exact Hin. rewrite Hl.
  cbn -[SubdomainContact.await_sends]. rewrite Ha. reflexivity.
Qed.

Lemma SubdomainContact_settle_success (l : nat) (admin user : SendResult)
    (st : SubdomainContact.State) (sub : SubdomainContact.Submission) :
  l ∈ SubdomainContact.inflight st ->
  SubdomainContact.heap st !! l = Some sub ->
  SubdomainContact.await_sends admin user = Sent ->
  exists j,
    SubdomainContact.submit_settle env l admin user st =
      Some ({| SubdomainContact.heap :=
                 <[l := SubdomainContact.set_status completed sub]>
                   (SubdomainContact.heap st);
               SubdomainContact.submissions :=
                 <[SubdomainContact.id sub := l]> (SubdomainContact.submissions st);
               SubdomainContact.inflight := SubdomainContact.inflight st ∖ {[l]};
               SubdomainContact.hits := SubdomainContact.hits st |},
            [SubdomainContact.Respond
               {| SubdomainContact.statusCode := 200;
                  SubdomainContact.body := SubdomainContact.JsonBody j |}]) /\
    SubdomainContact.success j = true /\
    SubdomainContact.data j =
      Some {| SubdomainContact.data_id := SubdomainContact.id sub;
              SubdomainContact.data_name := SubdomainContact.name sub;
              SubdomainContact.data_email := SubdomainContact.email sub |}.
Proof.
  intros Hin Hl Ha. unfold SubdomainContact.submit_settle.
  rewrite bool_decide_eq_true_2 by exact Hin. rewrite Hl.
  cbn -[SubdomainContact.await_sends]. rewrite Ha.
  eexists. split; [reflexivity|]. split; reflexivity.
Qed.

(** In SubdomainContact.js the combined promise takes the outcome of the
    admin send, whatever the user send does. *)
Lemma SubdomainContact_await_sends_admin (admin user : SendResult) :
  SubdomainContact.await_sends admin user = admin.
Proof. destruct admin; reflexivity. Qed.

(** In part_002 the combined promise resolves only when both sends do. *)
Lemma Part002_await_sends_Sent (admin user : SendResult) (user_first : bool) :
  Part002.await_sends admin user user_first = Sent <->
  admin = Sent /\ user = Sent.
Proof.
  unfold Part002.await_sends.
  destruct user_first, admin, user; cbn; split;
    try intros [? ?]; try discriminate; auto.
Qed.

Lemma Part002_settle_failure (l : nat) (admin user : SendResult)
    (user_first : bool) (msg : string) (st : Part002.State)
    (sub : Part002.Submission) :
  Part002.inflight st !! l = Some Part002.Sending ->
  Part002.heap st !! l = Some sub ->
  Part002.await_sends admin user user_first = SendError msg ->
  exists j,
    Part002.submit_settle env l admin user user_first st =
      Some ({| Part002.heap := <[l := Part002.set_status failed sub]> (Part002.heap st);
               Part002.submissions := Part002.submissions st;
               Part002.inflight := delete l (Part002.inflight st) |},
            [Part002.Respond {| Part002.statusCode := 500; Part002.body := j |}]) /\
    Part002.success j = false /\
    Part002.res_message j = Some
      (if configuration_related msg
       then "Service temporarily unavailable"
       else "Failed to process your submission. Please try again later.") /\
    Part002.res_error j =
      if bool_decide (env !! "NODE_ENV" = Some "development")
      then Some msg else None.
Proof.
  intros Hi Hl Ha. unfold Part002.submit_settle. rewrite Hi, Hl.
  cbn -[Part002.await_sends]. rewrite Ha.
  unfold Part002.submit_catch, configuration_related.
  destruct (JS.includes msg "credentials");
    (eexists; split; [reflexivity|]; repeat split; reflexivity).
Qed.

Lemma Part002_settle_success (l : nat) (st : Part002.State)
    (user_first : bool) (sub : Part002.Submission) :
  Part002.inflight st !! l = Some Part002.Sending ->
  Part002.heap st !! l = Some sub ->
  exists j,
    Part002.submit_settle env l Sent Sent user_first st =
      Some ({| Part002.heap := <[l := Part002.set_status completed sub]> (Part002.heap st);
               Part002.submissions := Part002.submissions st;
               Part002.inflight := delete l (Part002.inflight st) |},
            [Part002.Respond {| Part002.statusCode := 200; Part002.body := j |}]) /\
    Part002.success j = true.
Proof.
  intros Hi Hl. unfold Part002.submit_settle. rewrite Hi, Hl.
  destruct user_first; cbn; (eexists; split; reflexivity).
Qed.

End Dispatch.



(** ** The lifecycle of a submission *)

(** C3: in every state the handlers can reach, a step that creates a
    submission object creates it [pending] and in the store, and along any
    further run the status of an existing object only moves forward: it
    keeps its value or leaves [pending] for [completed] or [failed]. This
    holds for SubdomainContact.js and for part_002. *)
Theorem status_only_moves_forward `{Host} (env : gmap string string) :
  (forall evs st out,
     SubdomainContact.run env evs SubdomainContact.init = Some (st, out) ->
     (forall e st' out' l sub',
        SubdomainContact.step env e st = Some (st', out') ->
        SubdomainContact.heap st !! l = None ->
        SubdomainContact.heap st' !! l = Some sub' ->
        SubdomainContact.status sub' = pending /\
        SubdomainContact.submissions st' !! SubdomainContact.id sub' = Some l) /\
     (forall evs' st' out' l sub,
        SubdomainContact.run env evs' st = Some (st', out') ->
        SubdomainContact.heap st !! l = Some sub ->
        exists sub',
          SubdomainContact.heap st' !! l = Some sub' /\
          forward (SubdomainContact.status sub) (SubdomainContact.status sub'))) /\
  (forall evs st out,
     Part002.run env evs Part002.init = Some (st, out) ->
     (forall e st' out' l sub',
        Part002.step env e st = Some (st', out') ->
        Part002.heap st !! l = None ->
        Part002.heap st' !! l = Some sub' ->
        Part002.status sub' = pending /\ l ∈ Part002.submissions st') /\
     (forall evs' st' out' l sub,
        Part002.run env evs' st = Some (st', out') ->
        Part002.heap st !! l = Some sub ->
        exists sub',
          Part002.heap st' !! l = Some sub' /\
          forward (Part002.status sub) (Part002.status sub'))).
Proof.
  split.
  - intros evs st out Hrun.
    pose proof (SubdomainContactFacts.reachable_consistent env st
                  (SubdomainContactFacts.run_reachable env _ _ _ _
                     (SubdomainContact.reachable_init env) Hrun)) as Hc.
    split.
    + intros e st' out' l sub' Hstep.
      destruct (SubdomainContactFacts.step_forward env e st st' out' Hc Hstep)
        as [_ Hnew]. apply Hnew.
    + intros evs' st' out' l sub Hrun'.
      by eapply SubdomainContactFacts.run_forward.
  - intros evs st out Hrun.
    pose proof (Part002Facts.reachable_consistent002 env st
                  (Part002Facts.run_reachable002 env _ _ _ _
                     (Part002.reachable_init env) Hrun)) as Hc.
    split.
    + intros e st' out' l sub' Hstep.
      destruct (Part002Facts.shape_forward002 st st' Hc
                  (Part002Facts.step_has_shape env _ _ _ _ Hstep))
        as [_ Hnew]. apply Hnew.
    + intros evs' st' out' l sub Hrun'.
      by eapply Part002Facts.run_forward002.
Qed.

(** The theorem on a run of part_002: the object created by a request is
    still there, with a status that is forward of [pending], after its
    handler has finished with a failed user send. *)
Lemma status_forward_witness :
  exists st' out' sub',
    @Part002.run Examples.host Examples.env002
      [Part002.Settle 0 Sent (SendError "550 mailbox unavailable") false]
      Examples.sending002 = Some (st', out') /\
    Part002.heap st' !! 0%nat = Some sub' /\
    forward (Part002.status Examples.sub002) (Part002.status sub').
Proof.
  destruct (@status_only_moves_forward Examples.host Examples.env002)
    as [_ Hp2].
  edestruct (Hp2 [Part002.Submit Examples.request002; Part002.Resume 0]
               Examples.sending002) as [_ Hfw].
  { vm_compute. reflexivity. }
  destruct (Hfw [Part002.Settle 0 Sent (SendError "550 mailbox unavailable") false]
              {| Part002.heap := [Part002.set_status failed Examples.sub002];
                 Part002.submissions := [0%nat];
                 Part002.inflight := ∅ |}
              [Part002.Respond
                 {| Part002.statusCode := 500;
                    Part002.body :=
                      {| Part002.success := false;
                         Part002.res_message := Some
                           "Failed to process your submission. Please try again later.";
                         Part002.errors := None;
                         Part002.data := None;
                         Part002.res_error := None |} |}]
              0%nat Examples.sub002) as (sub' & Hl & Hf).
  { vm_compute. reflexivity. }
  { reflexivity. }
  eexists _, _, sub'. split; [|split; [exact Hl | exact Hf]].
  vm_compute. reflexivity.
Defined.

(** ** Dispatch policy *)

(** In part_002 a failed user confirmation, with the admin notification
    sent, ends the request with status 500 and marks the submission
    [failed]. *)
Lemma part002_user_send_failure_fails_request :
  exists st' r,
    Part002.submit_settle ∅ 0 Sent (SendError "550 mailbox unavailable") false
      Examples.sending002 = Some (st', [Part002.Respond r]) /\
    Part002.statusCode r = 500 /\
    Part002.statusCode r <> 200 /\
    Part002.heap st' !! 0%nat =
      Some (Part002.set_status failed Examples.sub002).
Proof.
  eexists _, _. split; [vm_compute; reflexivity|].
  split; [reflexivity|]. split; [discriminate | reflexivity].
Qed.

(** C7, amended: in SubdomainContact.js the step that accepts a validated
    request hands the admin notification (to the fixed admin address, with
    the admin document of the stored submission) and the user confirmation
    (to the submitter's address, with the user document) to the transport
    together, neither send waiting for the other; the request then succeeds
    with 200 as soon as the admin send succeeds, whatever becomes of the
    user send, and fails with 500 or 503 when the admin send fails. In
    part_002 a validated request is stored with its two documents; when
    ADMIN_EMAIL is set the handler then hands the admin notification (to
    that address) and the user confirmation (to the submitter's address) to
    the transport together, and when it is not set the handler sends
    nothing and fails the request with 500. Once the sends have settled,
    part_002 answers 200 when both succeeded and 500 when either failed. *)
Theorem dispatch_policy_by_variant `{Host} (env : gmap string string) :
  (forall req st,
     (Chain.run_all SubdomainContact.contactValidationRules
        (SubdomainContact.req_body req)).2 = [] ->
     exists sub,
       SubdomainContact.status sub = pending /\
       SubdomainContact.submit_begin env req st =
         ({| SubdomainContact.heap := (SubdomainContact.heap st ++ [sub])%list;
             SubdomainContact.submissions :=
               <[SubdomainContact.id sub := length (SubdomainContact.heap st)]>
                 (SubdomainContact.submissions st);
             SubdomainContact.inflight :=
               {[length (SubdomainContact.heap st)]} ∪ SubdomainContact.inflight st;
             SubdomainContact.hits := SubdomainContact.hits st |},
          [SubdomainContact.SendMail
             {| mail_from := SubdomainContact.from_header env;
                mail_to := "emotionease@gmail.com";
                mail_subject :=
                  "New Contact Submission from " +:+ SubdomainContact.name sub;
                mail_html := SubdomainContact.generateAdminEmail sub;
                mail_priority := Some "high" |};
           SubdomainContact.SendMail
             {| mail_from := SubdomainContact.from_header env;
                mail_to := SubdomainContact.email sub;
                mail_subject :=
                  JS.or_default (env !! "USER_EMAIL_SUBJECT")
                    "Thank you for contacting us";
                mail_html := SubdomainContact.generateUserEmail env sub;
                mail_priority := None |}])) /\
  (forall evs st out l user,
     SubdomainContact.run env evs SubdomainContact.init = Some (st, out) ->
     l ∈ SubdomainContact.inflight st ->
     (exists st' r sub',
        SubdomainContact.step env (SubdomainContact.Settle l Sent user) st =
          Some (st', [SubdomainContact.Respond r]) /\
        SubdomainContact.statusCode r = 200 /\
        SubdomainContact.heap st' !! l = Some sub' /\
        SubdomainContact.status sub' = completed) /\
     (forall msg, exists st' r sub',
        SubdomainContact.step env
          (SubdomainContact.Settle l (SendError msg) user) st =
          Some (st', [SubdomainContact.Respond r]) /\
        (SubdomainContact.statusCode r = 500 \/
         SubdomainContact.statusCode r = 503) /\
        SubdomainContact.heap st' !! l = Some sub' /\
        SubdomainContact.status sub' = failed)) /\
  (forall req st,
     (Chain.run_all Part002.contactValidationRules
        (Part002.req_body req)).2 = [] ->
     exists sub,
       Part002.status sub = pending /\
       Part002.submit_begin req st =
         ({| Part002.heap := (Part002.heap st ++ [sub])%list;
             Part002.submissions :=
               (Part002.submissions st ++ [length (Part002.heap st)])%list;
             Part002.inflight :=
               <[length (Part002.heap st) :=
                   Part002.Rendered (Part002.generateAdminEmail sub)
                                    (Part002.generateUserEmail sub)]>
                 (Part002.inflight st) |},
          [])) /\
  (forall evs st out l a u,
     Part002.run env evs Part002.init = Some (st, out) ->
     Part002.inflight st !! l = Some (Part002.Rendered a u) ->
     exists sub,
       Part002.heap st !! l = Some sub /\
       a = Part002.generateAdminEmail sub /\
       u = Part002.generateUserEmail sub /\
       (JS.truthy (env !! "ADMIN_EMAIL") = true ->
        Part002.step env (Part002.Resume l) st =
          Some ({| Part002.heap := Part002.heap st;
                   Part002.submissions := Part002.submissions st;
                   Part002.inflight :=
                     <[l := Part002.Sending]> (Part002.inflight st) |},
                [Part002.SendMail
                   {| mail_from :=
                        String.concat "" [JS.dq; "Company Support"; JS.dq; " <";
                                          JS.show (env !! "EMAIL_USER"); ">"];
                      mail_to := JS.show (env !! "ADMIN_EMAIL");
                      mail_subject :=
                        "New Contact Submission from " +:+ Part002.name sub;
                      mail_html := a;
                      mail_priority := Some "high" |};
                 Part002.SendMail
                   {| mail_from :=
                        String.concat "" [JS.dq; "Company Support"; JS.dq; " <";
                                          JS.show (env !! "EMAIL_USER"); ">"];
                      mail_to := Part002.email sub;
                      mail_subject := "Thank you for contacting us";
                      mail_html := u;
                      mail_priority := None |}])) /\
       (JS.truthy (env !! "ADMIN_EMAIL") = false ->
        exists st' r sub',
          Part002.step env (Part002.Resume l) st =
            Some (st', [Part002.Respond r]) /\
          Part002.statusCode r = 500 /\
          Part002.heap st' !! l = Some sub' /\
          Part002.status sub' = failed)) /\
  (forall evs st out l admin user user_first,
     Part002.run env evs Part002.init = Some (st, out) ->
     Part002.inflight st !! l = Some Part002.Sending ->
     exists st' r sub',
       Part002.step env (Part002.Settle l admin user user_first) st =
         Some (st', [Part002.Respond r]) /\
       Part002.heap st' !! l = Some sub' /\
       ((admin = Sent /\ user = Sent) /\
        Part002.statusCode r = 200 /\ Part002.status sub' = completed \/
        ~ (admin = Sent /\ user = Sent) /\
        Part002.statusCode r = 500 /\ Part002.status sub' = failed)).
Proof.
  split; [|split; [|split; [|split]]].
  - intros req st Hok. unfold SubdomainContact.submit_begin.
    destruct (Chain.run_all _ _) as [body' es]. cbn [snd] in Hok. subst es.
    cbv zeta.
    match goal with
    | |- context [(SubdomainContact.heap st ++ [?s])%list] => exists s
    end.
    split; reflexivity.
  - intros evs st out l user Hrun Hin.
    pose proof (SubdomainContactFacts.reachable_consistent env st
                  (SubdomainContactFacts.run_reachable env _ _ _ _
                     (SubdomainContact.reachable_init env) Hrun)) as [Hfl _].
    destruct (Hfl l Hin) as (sub & Hl & _).
    assert (l < length (SubdomainContact.heap st))%nat as Hlt
      by (by eapply lookup_lt_Some).
    split.
    + destruct (SubdomainContact_settle_success env l Sent user st sub Hin Hl)
        as (j & Hs & _); [reflexivity|].
      eexists _, _, _. cbn [SubdomainContact.step].
      split; [exact Hs|]. split; [reflexivity|].
      split; [cbn; by apply list_lookup_insert_eq | reflexivity].
    + intros msg. eexists _, _, _. cbn [SubdomainContact.step].
      split; [by apply SubdomainContact_settle_failure|].
      split; [cbn; destruct (configuration_related msg); auto|].
      split; [cbn; by apply list_lookup_insert_eq | reflexivity].
  - intros req st Hok. unfold Part002.submit_begin.
    destruct (Chain.run_all _ _) as [body' es]. cbn [snd] in Hok. subst es.
    cbv zeta.
    match goal with
    | |- context [(Part002.heap st ++ [?s])%list] => exists s
    end.
    split; reflexivity.
  - intros evs st out l a u Hrun Hi.
    pose proof (Part002Facts.run_reachable002 env _ _ _ _
                  (Part002.reachable_init env) Hrun) as Hreach.
    destruct (Part002Facts.rendered_documents env st Hreach l a u Hi)
      as (sub & Hl & Ha & Hu).
    assert (l < length (Part002.heap st))%nat as Hlt
      by (by eapply lookup_lt_Some).
    exists sub. split; [exact Hl|]. split; [exact Ha|]. split; [exact Hu|].
    split.
    + intros Hadmin. cbn [Part002.step]. unfold Part002.submit_dispatch.
      rewrite Hi, Hl. cbn [mbind option_bind]. rewrite Hadmin.
      reflexivity.
    + intros Hadmin. cbn [Part002.step]. unfold Part002.submit_dispatch.
      rewrite Hi, Hl. cbn [mbind option_bind]. rewrite Hadmin.
      unfold Part002.submit_catch. cbn [negb].
      eexists _, _, _. split; [reflexivity|]. split; [reflexivity|].
      split; [cbn [Part002.heap]; by apply list_lookup_insert_eq | reflexivity].
  - intros evs st out l admin user user_first Hrun Hi.
    pose proof (Part002Facts.reachable_consistent002 env st
                  (Part002Facts.run_reachable002 env _ _ _ _
                     (Part002.reachable_init env) Hrun)) as [Hfl _].
    destruct (Hfl l _ Hi) as (_ & sub & Hl & _).
    assert (l < length (Part002.heap st))%nat as Hlt
      by (by eapply lookup_lt_Some).
    cbn [Part002.step].
    destruct (Part002.await_sends admin user user_first) as [|msg] eqn:Ha.
    + apply Part002_await_sends_Sent in Ha as [-> ->].
      destruct (Part002_settle_success env l st user_first sub Hi Hl)
        as (j & Hs & _).
      eexists _, _, _. split; [exact Hs|].
      split; [cbn; by apply list_lookup_insert_eq|].
      left. auto.
    + destruct (Part002_settle_failure env l admin user user_first msg st sub
                  Hi Hl Ha) as (j & Hs & _).
      eexists _, _, _. split; [exact Hs|].
      split; [cbn; by apply list_lookup_insert_eq|].
      right. split; [|split; reflexivity].
      intros Hboth.
      apply (Part002_await_sends_Sent admin user user_first) in Hboth.
      congruence.
Qed.

(** The theorem on the state in which part_002 waits for its two sends. *)
Lemma dispatch_policy_witness :
  exists st' r sub',
    @Part002.step Examples.host Examples.env002
      (Part002.Settle 0 Sent (SendError "550 mailbox unavailable") false)
      Examples.sending002 = Some (st', [Part002.Respond r]) /\
    Part002.heap st' !! 0%nat = Some sub' /\
    ((Sent = Sent /\ SendError "550 mailbox unavailable" = Sent) /\
     Part002.statusCode r = 200 /\ Part002.status sub' = completed \/
     ~ (Sent = Sent /\ SendError "550 mailbox unavailable" = Sent) /\
     Part002.statusCode r = 500 /\ Part002.status sub' = failed).
Proof.
  destruct (@dispatch_policy_by_variant Examples.host Examples.env002)
    as (_ & _ & _ & _ & Hp2).
  eapply (Hp2 [Part002.Submit Examples.request002; Part002.Resume 0]).
  - vm_compute. reflexivity.
  - vm_compute. reflexivity.
Defined.

(** ** Failure responses *)

(** SubdomainContact.js answers a failed dispatch with 503 exactly when the
    failure is configuration-related and with 500 otherwise, and passes the
    raw message on exactly in development mode. *)
Lemma SubdomainContact_failure_response (env : gmap string string) (msg : string) :
  let r := SubdomainContact_failure env msg in
  (SubdomainContact.statusCode r = 503 <-> configuration_related msg = true) /\
  (SubdomainContact.statusCode r = 500 <-> configuration_related msg = false) /\
  exists j, SubdomainContact.body r = SubdomainContact.JsonBody j /\
    SubdomainContact.success j = false /\
    (SubdomainContact.res_error j = Some msg <->
       env !! "NODE_ENV" = Some "development") /\
    (SubdomainContact.res_error j = None <->
       env !! "NODE_ENV" <> Some "development").
Proof.
  intros r. subst r. unfold SubdomainContact_failure. cbn.
  split; [|split].
  - destruct (configuration_related msg); split; intros; congruence.
  - destruct (configuration_related msg); split; intros; congruence.
  - eexists. split; [reflexivity|]. cbn. split; [reflexivity|].
    case_bool_decide as Hd; split; split; intros; congruence.
Qed.

(** C9, evaluated on part_002: a dispatch failure whose message mentions
    credentials is configuration-related, and the handler answers it with
    status 500 while choosing the message of an unavailable service. *)
Theorem part002_credentials_failure_answers_500 :
  configuration_related "Invalid login: 535 5.7.8 Bad credentials" = true /\
  snd <$> Part002.submit_settle ∅ 0
            (SendError "Invalid login: 535 5.7.8 Bad credentials") Sent false
            Examples.sending002
  = Some [Part002.Respond
            {| Part002.statusCode := 500;
               Part002.body :=
                 {| Part002.success := false;
                    Part002.res_message := Some "Service temporarily unavailable";
                    Part002.errors := None;
                    Part002.data := None;
                    Part002.res_error := None |} |}].
Proof. split; vm_compute; reflexivity. Qed.

(** ** The sweep *)

Lemma sweep_lookup (now : Z) (st : SubdomainContact.State) (k : string) (l : nat) :
  SubdomainContact.submissions (SubdomainContact.sweep now st) !! k = Some l <->
  SubdomainContact.submissions st !! k = Some l /\
  SubdomainContact.swept now (SubdomainContact.heap st) l = false.
Proof. unfold SubdomainContact.sweep. cbn. apply map_lookup_filter_Some. Qed.

(** C6: the timer fires every hour, and in a reachable state a sweep at
    time [now] keeps exactly the entries of the map whose submission is at
    most 24 hours old and changes no submission object. In particular an
    entry older than 24 hours is absent afterwards and an entry dated one
    hour before the sweep is still there with its object unchanged. *)
Theorem sweep_removes_exactly_the_expired `{Host} (env : gmap string string) :
  (forall t0 k,
     SubdomainContact.sweep_time t0 (S k) - SubdomainContact.sweep_time t0 k
     = 60 * 60 * 1000) /\
  (forall evs st out now,
     SubdomainContact.run env evs SubdomainContact.init = Some (st, out) ->
     SubdomainContact.step env (SubdomainContact.Sweep now) st =
       Some (SubdomainContact.sweep now st, []) /\
     SubdomainContact.heap (SubdomainContact.sweep now st) =
       SubdomainContact.heap st /\
     (forall k l,
        SubdomainContact.submissions (SubdomainContact.sweep now st) !! k = Some l <->
        exists sub,
          SubdomainContact.submissions st !! k = Some l /\
          SubdomainContact.heap st !! l = Some sub /\
          now - SubdomainContact.date sub <= 24 * 60 * 60 * 1000) /\
     (forall k l sub,
        SubdomainContact.submissions st !! k = Some l ->
        SubdomainContact.heap st !! l = Some sub ->
        (now - SubdomainContact.date sub > 24 * 60 * 60 * 1000 ->
         SubdomainContact.submissions (SubdomainContact.sweep now st) !! k = None) /\
        (SubdomainContact.date sub = now - 60 * 60 * 1000 ->
         SubdomainContact.submissions (SubdomainContact.sweep now st) !! k = Some l /\
         SubdomainContact.heap (SubdomainContact.sweep now st) !! l = Some sub))).
Proof.
  split.
  - intros t0 k. unfold SubdomainContact.sweep_time, SubdomainContact.SWEEP_INTERVAL.
    lia.
  - intros evs st out now Hrun.
    pose proof (SubdomainContactFacts.reachable_consistent env st
                  (SubdomainContactFacts.run_reachable env _ _ _ _
                     (SubdomainContact.reachable_init env) Hrun)) as [_ Hmap].
    assert (forall l sub, SubdomainContact.heap st !! l = Some sub ->
              (SubdomainContact.swept now (SubdomainContact.heap st) l = false <->
               now - SubdomainContact.date sub <= 24 * 60 * 60 * 1000)) as Hswept.
    { intros l sub Hl. unfold SubdomainContact.swept. rewrite Hl.
      unfold SubdomainContact.expired, SubdomainContact.SUBMISSION_TTL.
      case_bool_decide; split; intros; try done; lia. }
    split; [reflexivity|]. split; [reflexivity|]. split.
    + intros k l. rewrite sweep_lookup. split.
      * intros [Hk Hs]. destruct (Hmap k l Hk) as (sub & Hl & _).
        exists sub. split; [exact Hk|]. split; [exact Hl|].
        by apply (Hswept l sub Hl).
      * intros (sub & Hk & Hl & Hage). split; [exact Hk|].
        by apply (Hswept l sub Hl).
    + intros k l sub Hk Hl. split.
      * intros Hold.
        destruct (SubdomainContact.submissions (SubdomainContact.sweep now st) !! k)
          as [l'|] eqn:Hk'; [|reflexivity].
        apply sweep_lookup in Hk' as [Hk' Hs].
        assert (l' = l) as -> by congruence.
        apply (Hswept l sub Hl) in Hs. lia.
      * intros Hdate. split; [|exact Hl].
        apply sweep_lookup. split; [exact Hk|].
        apply (Hswept l sub Hl). lia.
Qed.

(** The theorem on the state after one accepted request, swept an hour
    after the request. *)
Lemma sweep_witness :
  exists sub,
    SubdomainContact.submissions
      (SubdomainContact.sweep (1700000000000 + 60 * 60 * 1000)
         (@SubdomainContact.submit Examples.host ∅ Examples.request
            SubdomainContact.init).1) !! "1700000000000" = Some 0%nat /\
    SubdomainContact.heap
      (SubdomainContact.sweep (1700000000000 + 60 * 60 * 1000)
         (@SubdomainContact.submit Examples.host ∅ Examples.request
            SubdomainContact.init).1) !! 0%nat = Some sub.
Proof.
  destruct (@sweep_removes_exactly_the_expired Examples.host ∅) as [_ Hsweep].
  edestruct (Hsweep [SubdomainContact.Submit Examples.request]
               (@SubdomainContact.submit Examples.host ∅ Examples.request
                  SubdomainContact.init).1
               (@SubdomainContact.submit Examples.host ∅ Examples.request
                  SubdomainContact.init).2
               (1700000000000 + 60 * 60 * 1000))
    as (_ & _ & _ & Hage).
  { vm_compute. reflexivity. }
  edestruct (Hage "1700000000000" 0%nat) as [_ Hkeep].
  { vm_compute. reflexivity. }
  { vm_compute. reflexivity. }
  eexists. apply Hkeep. vm_compute. reflexivity.
Defined.

(** ** The rate limit *)

Module LimiterFacts.
Import SubdomainContact Traffic.

Section Facts.
Context `{Host}.
Variable env : gmap string string.

Lemma submit_hits (req : Request) (st : State) :
  hits (submit env req st).1 =
  (contactLimiter (t_arrival req) (req_ip req) (hits st)).2.
Proof.
  unfold submit. destruct (contactLimiter _ _ _) as [pass h'].
  destruct pass; [|reflexivity].
  unfold submit_begin. destruct (Chain.run_all _ _) as [b es].
  destruct es; reflexivity.
Qed.

Lemma settle_hits (l : nat) (admin user : SendResult) (st st' : State)
    (out : list Output) :
  submit_settle env l admin user st = Some (st', out) -> hits st' = hits st.
Proof.
  unfold submit_settle. case_bool_decide; [|discriminate].
  destruct (heap st !! l); [|discriminate]. cbn -[await_sends].
  destruct (await_sends admin user); intros [= <- _]; reflexivity.
Qed.

(** The limiter's memory of an address after a request. *)
Lemma logged_after_submit (req : Request) (st : State) (addr : string) :
  logged (submit env req st).1 addr =
  if decide (addr = req_ip req)
  then ((if passes req st then [t_arrival req] else []) ++
        recent (t_arrival req) (logged st (req_ip req)))%list
  else logged st addr.
Proof.
  unfold logged. rewrite submit_hits. unfold passes, contactLimiter.
  case_bool_decide; cbn; rewrite lookup_insert;
    destruct (decide (addr = req_ip req)) as [-> | Hne];
    repeat case_decide; try congruence; reflexivity.
Qed.

Lemma passes_iff (req : Request) (st : State) :
  passes req st = true <->
  (length (recent (t_arrival req) (logged st (req_ip req))) < 5)%nat.
Proof.
  unfold passes, contactLimiter, logged. cbn.
  case_bool_decide; cbn; split; intros; try done; lia.
Qed.

Lemma elem_of_recent (now u : Z) (log : list Z) :
  u ∈ recent now log <-> now - 15 * 60 * 1000 < u /\ u ∈ log.
Proof. unfold recent. rewrite list_elem_of_filter. reflexivity. Qed.

Lemma window_recent_le (t now : Z) (log : list Z) :
  (length (window t (recent now log)) <= length (window t log))%nat.
Proof.
  induction log as [|u log IH]; [reflexivity|].
  unfold window, recent in *.
  repeat (rewrite filter_cons; case_decide); cbn [length]; lia.
Qed.

Lemma window_recent_eq (t now : Z) (log : list Z) :
  now - 15 * 60 * 1000 < t ->
  window t (recent now log) = window t log.
Proof.
  intros Ht. induction log as [|u log IH]; [reflexivity|].
  unfold window, recent in *.
  repeat (rewrite filter_cons; case_decide); cbn in *;
    try rewrite IH; try reflexivity; lia.
Qed.

Lemma passed_times_ge (evs : list Event) (st : State) (lo : Z) (p : string * Z) :
  Forall (Z.le lo) (arrivals evs) -> p ∈ passed env evs st -> lo <= p.2.
Proof.
  revert st. induction evs as [|e rest IH]; intros st Hlo; cbn [passed].
  - intros Hin. by apply elem_of_nil in Hin.
  - destruct (step env e st) as [[st1 out1]|]; [|intros Hin; by apply elem_of_nil in Hin].
    destruct e as [req | l adm usr | now]; cbn in Hlo.
    + apply Forall_cons in Hlo as [Hreq Hrest].
      destruct (passes req st).
      * intros [-> | Hin]%elem_of_cons; [exact Hreq | by eapply IH].
      * by apply IH.
    + by apply IH.
    + by apply IH.
Qed.

Lemma within_late (addr : string) (lo hi : Z) (log : list (string * Z)) :
  (forall p, p ∈ log -> hi <= p.2) -> within addr lo hi log = [].
Proof.
  intros Hlate. unfold within. induction log as [|p log IH]; [reflexivity|].
  rewrite filter_cons. case_decide as Hp.
  - specialize (Hlate p (list_elem_of_here _ _)). lia.
  - apply IH. intros q Hq. apply Hlate. by apply list_elem_of_further.
Qed.

(** The heart of the bound: what the limiter remembers about an address
    together with what it lets through later never exceeds five in a
    window. *)
Lemma passed_bounded (evs : list Event) :
  forall (st : State) (lo : Z),
    (forall addr u, u ∈ logged st addr -> u <= lo) ->
    (forall addr t, (length (window t (logged st addr)) <= 5)%nat) ->
    Forall (Z.le lo) (arrivals evs) ->
    StronglySorted Z.le (arrivals evs) ->
    forall addr t,
      (length (window t (logged st addr)) +
       length (within addr t (t + 15 * 60 * 1000) (passed env evs st)) <= 5)%nat.
Proof.
  induction evs as [|e rest IH]; intros st lo Hle Hcap Hlo Hsorted addr t.
  - cbn. rewrite Nat.add_0_r. apply Hcap.
  - cbn [passed].
    destruct (step env e st) as [[st1 out1]|] eqn:Hstep;
      [|cbn; rewrite Nat.add_0_r; apply Hcap].
    destruct e as [req | l adm usr | now].
    + cbn in Hstep. injection Hstep as Hst1.
      assert (st1 = (submit env req st).1) as -> by (by rewrite Hst1).
      cbn in Hlo, Hsorted.
      apply Forall_cons in Hlo as [Hreq Hrest].
      apply StronglySorted_inv in Hsorted as [Hsorted Hafter].
      set (now := t_arrival req) in *. set (ip := req_ip req) in *.
      assert (forall a u, u ∈ logged (submit env req st).1 a -> u <= now) as Hle1.
      { intros a u. rewrite logged_after_submit. fold now ip.
        destruct (decide (a = ip)) as [-> | Hne].
        - intros [Hu | Hu]%elem_of_app.
          + destruct (passes req st); [|by apply elem_of_nil in Hu].
            apply list_elem_of_singleton in Hu. lia.
          + apply elem_of_recent in Hu as [_ Hu]. specialize (Hle ip u Hu). lia.
        - intros Hu. specialize (Hle a u Hu). lia. }
      assert (forall a w, (length (window w (logged (submit env req st).1 a)) <= 5)%nat)
        as Hcap1.
      { intros a w. rewrite logged_after_submit. fold now ip.
        destruct (decide (a = ip)) as [-> | Hne]; [|apply Hcap].
        destruct (passes req st) eqn:Hpass.
        - apply passes_iff in Hpass. fold now ip in Hpass.
          unfold window at 1. cbn [app]. rewrite filter_cons.
          case_decide as Hw.
          + cbn [length]. fold (window w (recent now (logged st ip))).
            pose proof (length_filter
              (fun u => w <= u /\ u < w + windowMs contactLimiter_options)
              (recent now (logged st ip))) as Hf.
            unfold window. lia.
          + fold (window w (recent now (logged st ip))).
            pose proof (window_recent_le w now (logged st ip)).
            specialize (Hcap ip w). lia.
        - cbn [app]. pose proof (window_recent_le w now (logged st ip)).
          specialize (Hcap ip w). lia. }
      specialize (IH (submit env req st).1 now Hle1 Hcap1 Hafter Hsorted addr t).
      rewrite logged_after_submit in IH. fold now ip in IH.
      destruct (Z_le_gt_dec (t + 15 * 60 * 1000) now) as [Hout | Hin].
      * (* the window has closed before this request *)
        clear IH.
        assert (within addr t (t + 15 * 60 * 1000)
                  (passed env rest (submit env req st).1) = []) as Hnone.
        { apply within_late. intros p Hp.
          pose proof (passed_times_ge rest _ now p Hafter Hp). lia. }
        specialize (Hcap addr t).
        destruct (passes req st); [|rewrite Hnone; cbn [length]; lia].
        unfold within. rewrite filter_cons. fold (within addr t (t + 15 * 60 * 1000)
          (passed env rest (submit env req st).1)).
        rewrite Hnone. case_decide as Hp; [cbn in Hp; lia | cbn [length]; lia].
      * (* the window is still open *)
        destruct (decide (addr = ip)) as [-> | Hne].
        -- rewrite <- (window_recent_eq t now (logged st ip)) by lia.
           destruct (passes req st).
           ++ unfold within. rewrite filter_cons.
              fold (within ip t (t + 15 * 60 * 1000)
                      (passed env rest (submit env req st).1)).
              cbn [app] in IH. unfold window at 1 in IH.
              rewrite filter_cons in IH.
              fold (window t (recent now (logged st ip))) in IH.
              repeat case_decide; cbn [length] in *; cbn in *; lia.
           ++ exact IH.
        -- destruct (passes req st); [|exact IH].
           unfold within. rewrite filter_cons.
           fold (within addr t (t + 15 * 60 * 1000)
                   (passed env rest (submit env req st).1)).
           case_decide as Hp; [cbn in Hp; destruct Hp; congruence | exact IH].
    + cbn in Hstep. apply settle_hits in Hstep.
      assert (forall a, logged st1 a = logged st a) as Hsame
        by (intros a; unfold logged; by rewrite Hstep).
      rewrite <- Hsame. apply (IH st1 lo).
      * intros a w. rewrite Hsame. apply Hle.
      * intros a w. rewrite Hsame. apply Hcap.
      * exact Hlo.
      * exact Hsorted.
    + cbn in Hstep. injection Hstep as <- _.
      apply (IH (sweep now st) lo); assumption.
Qed.

(** What the limiter remembers is what it has let through, as far as a
    later request can see. *)
Lemma logged_tracks_passed (evs : list Event) :
  forall (st st' : State) (out : list Output) (addr : string) (now : Z),
    run env evs st = Some (st', out) ->
    Forall (fun u => u <= now) (arrivals evs) ->
    length (recent now (logged st' addr)) =
    (length (recent now (logged st addr)) +
     length (within addr (now - 15 * 60 * 1000 + 1) (now + 1) (passed env evs st)))%nat.
Proof.
  induction evs as [|e rest IH]; intros st st' out addr now Hrun Hbefore.
  - cbn in Hrun. injection Hrun as <- _. cbn. lia.
  - cbn [run] in Hrun. cbn [passed].
    destruct (step env e st) as [[st1 out1]|] eqn:Hstep; [|discriminate].
    cbn -[run] in Hrun.
    destruct (run env rest st1) as [[st2 out2]|] eqn:Hrest; [|discriminate].
    cbn in Hrun. injection Hrun as <- _.
    destruct e as [req | l adm usr | t].
    + cbn in Hstep. injection Hstep as Hst1.
      assert (st1 = (submit env req st).1) as -> by (by rewrite Hst1).
      cbn in Hbefore. apply Forall_cons in Hbefore as [Hreq Hbefore].
      rewrite (IH _ _ _ addr now Hrest Hbefore).
      rewrite logged_after_submit.
      set (t := t_arrival req) in *. set (ip := req_ip req) in *.
      assert (recent now (recent t (logged st ip)) = recent now (logged st ip))
        as Hrr.
      { unfold recent. rewrite list_filter_filter. apply list_filter_iff.
        intros u. cbn. lia. }
      destruct (decide (addr = ip)) as [-> | Hne].
      * destruct (passes req st).
        -- unfold within at 2. rewrite filter_cons.
           fold (within ip (now - 15 * 60 * 1000 + 1) (now + 1)
                   (passed env rest (submit env req st).1)).
           cbn [app]. unfold recent at 1. rewrite filter_cons.
           fold (recent now (recent t (logged st ip))). rewrite Hrr.
           repeat case_decide; cbn [length] in *; cbn in *;
             first [lia | exfalso; naive_solver lia].
        -- cbn [app]. rewrite Hrr. reflexivity.
      * destruct (passes req st); [|reflexivity].
        unfold within at 2. rewrite filter_cons.
        fold (within addr (now - 15 * 60 * 1000 + 1) (now + 1)
                (passed env rest (submit env req st).1)).
        case_decide as Hp; [cbn in Hp; destruct Hp; congruence | reflexivity].
    + cbn in Hstep. apply settle_hits in Hstep.
      rewrite (IH _ _ _ addr now Hrest Hbefore).
      unfold logged. by rewrite Hstep.
    + cbn in Hstep. injection Hstep as <- _.
      by rewrite (IH _ _ _ addr now Hrest Hbefore).
Qed.

End Facts.
End LimiterFacts.

(** C5: with requests arriving in time order, the limiter lets through at
    most 5 requests of one client address in any window of 15 minutes. A
    request that arrives when 5 requests of its address have been let
    through in the 15 minutes up to its arrival is refused; a refused
    request is answered with the fixed message and reaches neither the
    validation nor the store, while a request that is let through is never
    answered with that message. *)
Theorem at_most_five_per_window `{Host} (env : gmap string string) :
  (forall evs addr t,
     StronglySorted Z.le (Traffic.arrivals evs) ->
     (length (Traffic.within addr t (t + 15 * 60 * 1000)
                (Traffic.passed env evs SubdomainContact.init)) <= 5)%nat) /\
  (forall evs st out req,
     SubdomainContact.run env evs SubdomainContact.init = Some (st, out) ->
     Forall (fun u => u <= SubdomainContact.t_arrival req) (Traffic.arrivals evs) ->
     (5 <= length (Traffic.within (SubdomainContact.req_ip req)
                     (SubdomainContact.t_arrival req - 15 * 60 * 1000 + 1)
                     (SubdomainContact.t_arrival req + 1)
                     (Traffic.passed env evs SubdomainContact.init)))%nat ->
     Traffic.passes req st = false) /\
  (forall req st,
     Traffic.passes req st = false ->
     exists st',
       SubdomainContact.submit env req st =
         (st', [SubdomainContact.Respond
                  {| SubdomainContact.statusCode := 429;
                     SubdomainContact.body := SubdomainContact.TextBody
                       "Too many contact attempts, please try again later" |}]) /\
       SubdomainContact.heap st' = SubdomainContact.heap st /\
       SubdomainContact.submissions st' = SubdomainContact.submissions st /\
       SubdomainContact.inflight st' = SubdomainContact.inflight st) /\
  (forall req st,
     Traffic.passes req st = true ->
     (SubdomainContact.submit env req st).2 <>
       [SubdomainContact.Respond SubdomainContact.limited]).
Proof.
  split; [|split; [|split]].
  - intros evs addr t Hsorted.
    pose proof (LimiterFacts.passed_bounded env evs SubdomainContact.init
                  (match Traffic.arrivals evs with [] => 0 | a :: _ => a end))
      as Hb.
    assert (forall a, Traffic.logged SubdomainContact.init a = []) as Hempty.
    { intros a. unfold Traffic.logged. cbn. by rewrite lookup_empty. }
    specialize (Hb ltac:(intros a u; rewrite Hempty; intros Hu;
                         by apply elem_of_nil in Hu)
                   ltac:(intros a w; rewrite Hempty; cbn; lia)).
    assert (Forall (Z.le (match Traffic.arrivals evs with [] => 0 | a :: _ => a end))
              (Traffic.arrivals evs)) as Hlo.
    { destruct (Traffic.arrivals evs) as [|a l]; [constructor|].
      apply StronglySorted_inv in Hsorted as [_ Hall].
      constructor; [lia | exact Hall]. }
    specialize (Hb Hlo Hsorted addr t). rewrite Hempty in Hb. cbn in Hb.
    exact Hb.
  - intros evs st out req Hrun Hbefore Hfive.
    pose proof (LimiterFacts.logged_tracks_passed env evs _ _ _
                  (SubdomainContact.req_ip req) (SubdomainContact.t_arrival req)
                  Hrun Hbefore) as Ht.
    destruct (Traffic.passes req st) eqn:Hp; [|reflexivity].
    apply LimiterFacts.passes_iff in Hp. lia.
  - intros req st Hp. unfold SubdomainContact.submit.
    unfold Traffic.passes in Hp.
    destruct (SubdomainContact.contactLimiter _ _ _) as [pass h]. cbn in Hp.
    subst pass. eexists. split; [reflexivity|]. cbn. auto.
  - intros req st Hp. unfold SubdomainContact.submit.
    unfold Traffic.passes in Hp.
    destruct (SubdomainContact.contactLimiter _ _ _) as [pass h]. cbn in Hp.
    subst pass.
    match goal with |- context [SubdomainContact.submit_begin env req ?s] =>
      destruct (SubdomainContactFacts.submit_begin_cases env req s)
        as [(r & -> & Hr) | (sub & a & u & -> & _)]
    end.
    + cbn. intros [= ->]. discriminate.
    + cbn. discriminate.
Qed.

(** The theorem on six requests of one address that arrive together: the
    sixth is refused. *)
Lemma sixth_request_witness :
  Traffic.passes Examples.request
    (Nat.iter 5
       (fun st => (@SubdomainContact.submit Examples.host ∅ Examples.request st).1)
       SubdomainContact.init) = false.
Proof.
  destruct (@at_most_five_per_window Examples.host ∅) as (_ & Hsixth & _).
  eapply (Hsixth (replicate 5 (SubdomainContact.Submit Examples.request))).
  - vm_compute. reflexivity.
  - repeat (constructor; [cbn; lia|]). constructor.
  - vm_compute. lia.
Defined.

(** * Further properties *)

(** ** Escaping and the generators of SubdomainContact.js *)

Section Escaping.
Import JS Text.

Lemma count_append (c : ascii) (s t : string) :
  count c (s +:+ t) = (count c s + count c t)%nat.
Proof.
  induction s as [|a s IH]; [reflexivity|].
  rewrite append_cons. cbn [count]. rewrite IH. lia.
Qed.

Lemma count_concat (c : ascii) (l : list string) :
  count c (String.concat "" l) = sum_list (count c <$> l).
Proof.
  induction l as [|x l IH]; [reflexivity|].
  rewrite concat_empty_cons, count_append, IH. reflexivity.
Qed.

Lemma count_absent (c : ascii) (s : string) :
  occurs c s = false -> count c s = 0%nat.
Proof.
  induction s as [|a s IH]; [reflexivity|]. cbn [occurs count].
  intros [Ha Hs]%orb_false_iff. rewrite Ha, (IH Hs). reflexivity.
Qed.

Lemma occurs_keep (p : ascii -> bool) (c : ascii) (s : string) :
  p c = false -> occurs c (keep p s) = false.
Proof.
  intros Hc. induction s as [|a s IH]; [reflexivity|]. cbn [keep].
  destruct (p a) eqn:Ha; [|exact IH]. cbn [occurs]. rewrite IH.
  destruct (Ascii.eqb_spec a c) as [-> | _]; [congruence | reflexivity].
Qed.

Lemma replaceAll_absent (c : ascii) (by_ s : string) :
  occurs c s = false -> replaceAll c by_ s = s.
Proof.
  induction s as [|a s IH]; [reflexivity|]. cbn [occurs replaceAll].
  intros [Ha Hs]%orb_false_iff. rewrite Ha, (IH Hs). reflexivity.
Qed.

(** The result of [escapeHtml] contains no [<], no [>], no double quote and
    no apostrophe, whatever the text. *)
Theorem escapeHtml_result_has_no_markup (unsafe : string) :
  occurs "<" (SubdomainContact.escapeHtml unsafe) = false /\
  occurs ">" (SubdomainContact.escapeHtml unsafe) = false /\
  occurs dq_char (SubdomainContact.escapeHtml unsafe) = false /\
  occurs "'" (SubdomainContact.escapeHtml unsafe) = false.
Proof.
  repeat split; apply escapeHtml_no_markup; auto.
Qed.

(** A text without any of the five characters [&], [<], [>], double quote
    and apostrophe is returned as it is. *)
Theorem escapeHtml_keeps_plain_text (unsafe : string) :
  occurs "&" unsafe = false ->
  occurs "<" unsafe = false ->
  occurs ">" unsafe = false ->
  occurs dq_char unsafe = false ->
  occurs "'" unsafe = false ->
  SubdomainContact.escapeHtml unsafe = unsafe.
Proof.
  intros Ha Hl Hg Hq Hp. unfold SubdomainContact.escapeHtml.
  destruct unsafe as [|a s]; [reflexivity|]. cbn [truthy negb].
  rewrite (replaceAll_absent "&") by exact Ha.
  rewrite (replaceAll_absent "<") by exact Hl.
  rewrite (replaceAll_absent ">") by exact Hg.
  rewrite (replaceAll_absent dq_char) by exact Hq.
  rewrite (replaceAll_absent "'") by exact Hp.
  reflexivity.
Qed.

Lemma escapeHtml_keeps_plain_text_witness :
  SubdomainContact.escapeHtml "Ann Lee" = "Ann Lee".
Proof. apply escapeHtml_keeps_plain_text; reflexivity. Defined.

Lemma count_escapeHtml (c : ascii) (s : string) :
  markup c -> count c (SubdomainContact.escapeHtml s) = 0%nat.
Proof. intros Hc. apply count_absent, escapeHtml_no_markup, Hc. Qed.

Lemma count_safePhone (c : ascii) (s : string) :
  markup c ->
  count c (keep (fun a => is_digit a || Ascii.eqb a "+") s) = 0%nat.
Proof.
  intros Hc. apply count_absent, occurs_keep.
  destruct Hc as [-> | [-> | [-> | ->]]]; reflexivity.
Qed.

End Escaping.

Section Generators.
Context `{Host}.
Import JS Text.

Lemma sum_count_cons (c : ascii) (x : string) (l : list string) :
  sum_list (count c <$> (x :: l)) = (count c x + sum_list (count c <$> l))%nat.
Proof. reflexivity. Qed.

(** The name, the e-mail address and the phone number of a submission never
    add a [<], a [>], a double quote or an apostrophe to the two documents
    of SubdomainContact.js: two submissions that agree on id, date and
    address and on whether they have a phone number give documents with
    the same number of each of these characters. *)
Theorem generators_fields_add_no_markup (env : gmap string string)
    (sub sub' : SubdomainContact.Submission) (c : ascii) :
  markup c ->
  SubdomainContact.id sub = SubdomainContact.id sub' ->
  SubdomainContact.date sub = SubdomainContact.date sub' ->
  SubdomainContact.ip sub = SubdomainContact.ip sub' ->
  truthy (SubdomainContact.phone sub) = truthy (SubdomainContact.phone sub') ->
  count c (SubdomainContact.generateAdminEmail sub) =
    count c (SubdomainContact.generateAdminEmail sub') /\
  count c (SubdomainContact.generateUserEmail env sub) =
    count c (SubdomainContact.generateUserEmail env sub').
Proof.
  intros Hc Hid Hdate Hip Hphone. split.
  - unfold SubdomainContact.generateAdminEmail. cbv zeta.
    rewrite (count_concat c). rewrite (count_concat c).
    repeat rewrite sum_count_cons.
    rewrite Hid, Hdate, Hip, Hphone.
    rewrite !(count_escapeHtml c) by exact Hc.
    destruct (truthy (SubdomainContact.phone sub')); [|reflexivity].
    rewrite (count_concat c). rewrite (count_concat c).
    repeat rewrite sum_count_cons.
    rewrite !(count_escapeHtml c) by exact Hc.
    rewrite !(count_safePhone c) by exact Hc.
    reflexivity.
  - unfold SubdomainContact.generateUserEmail.
    rewrite (count_concat c). rewrite (count_concat c).
    repeat rewrite sum_count_cons.
    rewrite Hid, Hdate.
    rewrite !(count_escapeHtml c) by exact Hc.
    reflexivity.
Qed.

End Generators.

(** The theorem on two submissions, one of which carries markup in its
    name and in its phone number. *)
Lemma generators_fields_add_no_markup_witness :
  Text.count "<"
    (@SubdomainContact.generateAdminEmail Examples.host Examples.markup_sub) =
  Text.count "<"
    (@SubdomainContact.generateAdminEmail Examples.host
       {| SubdomainContact.id := "1700000000000";
          SubdomainContact.name := "Ann";
          SubdomainContact.email := "ann@example.com";
          SubdomainContact.phone := Some "<b>1</b>";
          SubdomainContact.date := 1700000000000;
          SubdomainContact.status := pending;
          SubdomainContact.ip := "203.0.113.7";
          SubdomainContact.error := None |}).
Proof.
  exact (proj1 (@generators_fields_add_no_markup Examples.host ∅
                  Examples.markup_sub _ "<"%char
                  (or_introl eq_refl) eq_refl eq_refl eq_refl eq_refl)).
Defined.

(** ** What the contact router stores *)

(** The stored-as-sent lemma on the request whose phone field is a script
    element. *)
Lemma part000_phone_and_age_stored_as_sent_witness :
  exists sub,
    Part000.submissions
      (@Part000.submit_begin Examples.host ∅ Examples.markup_request000
         Part000.init).1 = [sub] /\
    Part000.phone sub = Some Examples.script /\
    Part000.age sub = None.
Proof.
  destruct (@part000_phone_and_age_stored_as_sent Examples.host ∅
              Examples.markup_request000 Part000.init
              (@Part000.submit_begin Examples.host ∅ Examples.markup_request000
                 Part000.init).1
              {| mail_from :=
                   String.concat "" [JS.dq; "EmotionEase Support"; JS.dq;
                                     " <"; "undefined"; ">"];
                 mail_to := "emotionease@gmail.com";
                 mail_subject := "New Contact Form Submission - general";
                 mail_html :=
                   @Part000.generateAdminEmail Examples.host 1700000000000
                     Examples.markup_phone000;
                 mail_priority := None |})
    as (sub & Hs & Hp & Ha & _).
  - vm_compute. reflexivity.
  - exists sub. split; [exact Hs|]. split; [exact Hp | exact Ha].
Defined.

(** ** The store of SubdomainContact.js *)

(** Two sweeps in a row do what one sweep at the later of the two times
    does; in particular a sweep repeated at the same time changes nothing
    more. *)
Theorem sweep_twice (t1 t2 : Z) (st : SubdomainContact.State) :
  SubdomainContact.sweep t2 (SubdomainContact.sweep t1 st) =
    SubdomainContact.sweep (Z.max t1 t2) st /\
  SubdomainContact.sweep t1 (SubdomainContact.sweep t1 st) =
    SubdomainContact.sweep t1 st.
Proof.
  assert (forall a b,
            SubdomainContact.sweep b (SubdomainContact.sweep a st) =
            SubdomainContact.sweep (Z.max a b) st) as Hmax.
  { intros a b. unfold SubdomainContact.sweep.
    cbn [SubdomainContact.heap SubdomainContact.submissions
         SubdomainContact.inflight SubdomainContact.hits].
    f_equal. rewrite map_filter_filter. apply map_filter_ext.
    intros k l _. cbn [snd]. unfold SubdomainContact.swept.
    destruct (SubdomainContact.heap st !! l) as [sub|]; [|tauto].
    unfold SubdomainContact.expired.
    repeat case_bool_decide; split; intros; try tauto; try lia;
      try (split; congruence); exfalso; lia. }
  split; [apply Hmax|]. rewrite Hmax. by rewrite Z.max_id.
Qed.

Module StoreFacts.
Import SubdomainContact.

Section Facts.
Context `{Host}.
Variable env : gmap string string.

(** The object an accepted request creates. *)
Lemma submit_begin_object (req : Request) (st : State) :
  (Chain.run_all contactValidationRules (req_body req)).2 = [] ->
  exists sub admin user,
    submit_begin env req st =
      ({| heap := (heap st ++ [sub])%list;
          submissions := <[pretty (t_id req) := length (heap st)]> (submissions st);
          inflight := {[length (heap st)]} ∪ inflight st;
          hits := hits st |},
       [SendMail admin; SendMail user]) /\
    id sub = pretty (t_id req) /\ status sub = pending /\ error sub = None /\
    date sub = t_date req /\ ip sub = req_ip req.
Proof.
  intros Hok. unfold submit_begin.
  destruct (Chain.run_all _ _) as [body' es]. cbn [snd] in Hok. subst es.
  cbv zeta.
  match goal with |- context [(heap st ++ [?s])%list] => exists s end.
  eexists _, _. split; [reflexivity|]. repeat split; reflexivity.
Qed.

(** What a step does to the objects of the heap. *)
Lemma step_objects (e : Event) (st st' : State) (out : list Output) :
  step env e st = Some (st', out) ->
  heap st' = heap st \/
  (exists sub, heap st' = (heap st ++ [sub])%list /\
               status sub = pending /\ error sub = None) \/
  (exists l sub, l ∈ inflight st /\ heap st !! l = Some sub /\
     (heap st' = <[l := set_status completed sub]> (heap st) \/
      exists msg,
        heap st' = <[l := set_error msg (set_status failed sub)]> (heap st))).
Proof.
  destruct e as [req | l admin user | now]; cbn [step].
  - intros [= Hst]. unfold submit in Hst.
    destruct (contactLimiter _ _ _) as [pass h].
    destruct pass; [|injection Hst as <- _; left; reflexivity].
    unfold submit_begin in Hst.
    destruct (Chain.run_all _ _) as [body' es].
    destruct es as [|e es]; injection Hst as <- _; [|left; reflexivity].
    right. left. eexists. split; [reflexivity|]. split; reflexivity.
  - unfold submit_settle. case_bool_decide as Hin; [|discriminate].
    destruct (heap st !! l) as [sub|] eqn:Hl; [|discriminate].
    cbn [mbind option_bind].
    destruct (await_sends admin user) as [|msg]; intros [= <- _];
      right; right; exists l, sub; (split; [exact Hin|]); (split; [exact Hl|]).
    + left. reflexivity.
    + right. exists msg. reflexivity.
  - intros [= <- _]. left. reflexivity.
Qed.

(** In every state the server can reach, a submission carries an error
    message exactly when its status is [failed]. *)
Theorem error_recorded_iff_failed (evs : list Event) (st : State)
    (out : list Output) (l : nat) (sub : Submission) :
  run env evs init = Some (st, out) ->
  heap st !! l = Some sub ->
  (status sub = failed <-> is_Some (error sub)).
Proof.
  intros Hrun.
  pose proof (SubdomainContactFacts.run_reachable env _ _ _ _
                (reachable_init env) Hrun) as Hreach.
  clear Hrun. revert l sub.
  induction Hreach as [| st e st' out' Hreach IH Hstep].
  - intros l sub Hl. cbn in Hl. by rewrite lookup_nil in Hl.
  - pose proof (SubdomainContactFacts.reachable_consistent env st Hreach)
      as [Hfl _].
    intros l sub Hl.
    destruct (step_objects e st st' out' Hstep)
      as [Hh | [(new & Hh & Hp & He) | (l0 & sub0 & Hin & Hl0 & Hh)]].
    + rewrite Hh in Hl. by apply (IH l).
    + rewrite Hh in Hl. apply lookup_app_Some in Hl as [Hl | [_ Hl]].
      * by apply (IH l).
      * apply list_lookup_singleton_Some in Hl as [_ <-].
        rewrite Hp, He. split; [discriminate | intros [? ?]; discriminate].
    + assert (l0 < length (heap st))%nat as Hlt by (by eapply lookup_lt_Some).
      destruct (Hfl l0 Hin) as (s0 & Hs0 & Hpend).
      assert (s0 = sub0) as -> by congruence.
      pose proof (IH l0 sub0 Hl0) as Hiff.
      destruct (decide (l0 = l)) as [-> | Hne].
      * destruct Hh as [Hh | [msg Hh]]; rewrite Hh in Hl;
          rewrite list_lookup_insert_eq in Hl by exact Hlt;
          injection Hl as <-; cbn.
        -- split; [discriminate|]. intros He. apply Hiff in He. congruence.
        -- split; [eauto | reflexivity].
      * destruct Hh as [Hh | [msg Hh]]; rewrite Hh in Hl;
          rewrite list_lookup_insert_ne in Hl by exact Hne; by apply (IH l).
Qed.

(** A request that ends with 200 returns the id under which the map holds
    its submission, which is then [completed] and carries the name and the
    address the response gives. *)
Theorem returned_id_is_stored (evs : list Event) (st st' : State)
    (out : list Output) (l : nat) (admin user : SendResult) (r : Response) :
  run env evs init = Some (st, out) ->
  step env (Settle l admin user) st = Some (st', [Respond r]) ->
  statusCode r = 200 ->
  exists j d sub',
    body r = JsonBody j /\ success j = true /\ data j = Some d /\
    submissions st' !! data_id d = Some l /\
    heap st' !! l = Some sub' /\
    status sub' = completed /\
    name sub' = data_name d /\ email sub' = data_email d.
Proof.
  intros Hrun Hstep Hcode. cbn [step] in Hstep.
  unfold submit_settle in Hstep. case_bool_decide as Hin; [|discriminate].
  destruct (heap st !! l) as [sub|] eqn:Hl; [|discriminate].
  assert (l < length (heap st))%nat as Hlt by (by eapply lookup_lt_Some).
  cbn [mbind option_bind] in Hstep.
  destruct (await_sends admin user) as [|msg]; injection Hstep as <- <-.
  - eexists _, _, _. split; [reflexivity|]. split; [reflexivity|].
    split; [reflexivity|]. cbn.
    split; [apply lookup_insert_eq|].
    split; [by apply list_lookup_insert_eq|]. repeat split.
  - cbn in Hcode. destruct (JS.includes msg "credentials"); discriminate.
Qed.

(** Two accepted requests whose [Date.now()] is the same share one key of
    the map: the second replaces the first, whose object is still in the
    heap but is no longer reached from the map. Two accepted requests with
    different readings have one entry each. *)
Theorem same_id_replaces_entry (evs : list Event) (st : State)
    (out : list Output) (req1 req2 : Request) :
  run env evs init = Some (st, out) ->
  (Chain.run_all contactValidationRules (req_body req1)).2 = [] ->
  (Chain.run_all contactValidationRules (req_body req2)).2 = [] ->
  exists sub1 sub2,
    heap (submit_begin env req2 (submit_begin env req1 st).1).1 =
      (heap st ++ [sub1; sub2])%list /\
    submissions (submit_begin env req2 (submit_begin env req1 st).1).1
      !! pretty (t_id req2) = Some (S (length (heap st))) /\
    (t_id req1 = t_id req2 ->
     forall k,
       submissions (submit_begin env req2 (submit_begin env req1 st).1).1 !! k
       <> Some (length (heap st))) /\
    (t_id req1 <> t_id req2 ->
     submissions (submit_begin env req2 (submit_begin env req1 st).1).1
       !! pretty (t_id req1) = Some (length (heap st))).
Proof.
  intros Hrun Hok1 Hok2.
  pose proof (SubdomainContactFacts.reachable_consistent env st
                (SubdomainContactFacts.run_reachable env _ _ _ _
                   (reachable_init env) Hrun)) as [_ Hmap].
  destruct (submit_begin_object req1 st Hok1)
    as (sub1 & a1 & u1 & -> & Hid1 & _).
  cbn [fst].
  match goal with |- context [submit_begin env req2 ?s] =>
    destruct (submit_begin_object req2 s Hok2)
      as (sub2 & a2 & u2 & -> & Hid2 & _)
  end.
  cbn [fst heap submissions].
  exists sub1, sub2. split; [by rewrite <- app_assoc|].
  rewrite length_app. cbn [length]. rewrite Nat.add_1_r.
  split; [apply lookup_insert_eq|]. split.
  - intros Heq k. rewrite Heq. rewrite lookup_insert. case_decide as Hk.
    + intros [= Hl]. lia.
    + rewrite lookup_insert_ne by exact Hk. intros Hl.
      destruct (Hmap k _ Hl) as (s & Hs & _).
      apply lookup_lt_Some in Hs. lia.
  - intros Hne. rewrite lookup_insert_ne.
    + apply lookup_insert_eq.
    + intros Heq. apply Hne. symmetry. by apply (inj pretty).
Qed.

End Facts.
End StoreFacts.

(** The theorem on a run in which the admin send is refused. *)
Lemma error_recorded_iff_failed_witness :
  exists sub,
    SubdomainContact.error sub = Some "connect ECONNREFUSED" /\
    (SubdomainContact.status sub = failed <->
     is_Some (SubdomainContact.error sub)).
Proof.
  eexists. split; [|
    eapply (@StoreFacts.error_recorded_iff_failed Examples.host ∅
              [SubdomainContact.Submit Examples.request;
               SubdomainContact.Settle 0 (SendError "connect ECONNREFUSED") Sent]
              _ _ 0%nat);
    [vm_compute; reflexivity | vm_compute; reflexivity]].
  reflexivity.
Defined.

(** The theorem on a run in which both sends succeed. *)
Lemma returned_id_is_stored_witness :
  exists st' r j d,
    @SubdomainContact.step Examples.host ∅
      (SubdomainContact.Settle 0 Sent Sent)
      (@SubdomainContact.submit Examples.host ∅ Examples.request
         SubdomainContact.init).1 = Some (st', [SubdomainContact.Respond r]) /\
    SubdomainContact.body r = SubdomainContact.JsonBody j /\
    SubdomainContact.data j = Some d /\
    SubdomainContact.submissions st' !! SubdomainContact.data_id d = Some 0%nat.
Proof.
  assert (exists st' r,
            @SubdomainContact.step Examples.host ∅
              (SubdomainContact.Settle 0 Sent Sent)
              (@SubdomainContact.submit Examples.host ∅ Examples.request
                 SubdomainContact.init).1
            = Some (st', [SubdomainContact.Respond r]) /\
            SubdomainContact.statusCode r = 200) as (st' & r & Hstep & Hcode).
  { eexists _, _. split; vm_compute; reflexivity. }
  destruct (@StoreFacts.returned_id_is_stored Examples.host ∅
              [SubdomainContact.Submit Examples.request]
              (@SubdomainContact.submit Examples.host ∅ Examples.request
                 SubdomainContact.init).1
              st'
              (@SubdomainContact.submit Examples.host ∅ Examples.request
                 SubdomainContact.init).2 0%nat Sent Sent r)
    as (j & d & sub' & Hb & _ & Hd & Hm & _);
    [vm_compute; reflexivity | exact Hstep | exact Hcode |].
  exists st', r, j, d. split; [exact Hstep|]. split; [exact Hb|].
  split; [exact Hd | exact Hm].
Defined.

(** The theorem on two requests that arrive in the same millisecond. *)
Lemma same_id_replaces_entry_witness :
  exists sub1 sub2,
    SubdomainContact.heap
      (@SubdomainContact.submit_begin Examples.host ∅ Examples.request
         (@SubdomainContact.submit_begin Examples.host ∅ Examples.request
            SubdomainContact.init).1).1 = [sub1; sub2] /\
    SubdomainContact.submissions
      (@SubdomainContact.submit_begin Examples.host ∅ Examples.request
         (@SubdomainContact.submit_begin Examples.host ∅ Examples.request
            SubdomainContact.init).1).1 !! "1700000000000" = Some 1%nat.
Proof.
  destruct (@StoreFacts.same_id_replaces_entry Examples.host ∅ []
              SubdomainContact.init [] Examples.request Examples.request)
    as (sub1 & sub2 & Hh & Hm & _).
  - reflexivity.
  - vm_compute. reflexivity.
  - vm_compute. reflexivity.
  - exists sub1, sub2. split; [exact Hh | exact Hm].
Defined.

(** ** The array of part_002 *)

(** In every state the router of part_002 can reach, the array holds every
    submission object ever created, once each and in the order of creation:
    nothing is removed or moved. *)
Theorem part002_array_is_append_only `{Host} (env : gmap string string)
    (evs : list Part002.Event) (st : Part002.State) (out : list Part002.Output) :
  Part002.run env evs Part002.init = Some (st, out) ->
  Part002.submissions st = seq 0 (length (Part002.heap st)).
Proof.
  intros Hrun.
  pose proof (Part002Facts.run_reachable002 env _ _ _ _
                (Part002.reachable_init env) Hrun) as Hreach.
  clear Hrun. induction Hreach as [| st e st' out' Hreach IH Hstep].
  - reflexivity.
  - destruct (Part002Facts.step_has_shape env e st st' out' Hstep)
      as [Hh Hs Hi | sub a u Hh Hs Hi Hp | l a u Hl Hh Hs Hi
          | l phase sub sub' Hl Hsub Hh Hs Hi Hst]; rewrite Hs, Hh.
    + exact IH.
    + rewrite length_app. cbn [length]. rewrite seq_app. cbn [seq].
      by rewrite IH.
    + exact IH.
    + rewrite length_insert. exact IH.
Qed.

Lemma part002_array_is_append_only_witness :
  Part002.submissions Examples.sending002 =
    seq 0 (length (Part002.heap Examples.sending002)).
Proof.
  eapply (@part002_array_is_append_only Examples.host Examples.env002
            [Part002.Submit Examples.request002; Part002.Resume 0]).
  vm_compute. reflexivity.
Defined.

(** ** Error lists *)

Section ErrorLists.
Import Chain.

Lemma onlyFirstError_from_paths (seen : list string) (es : list Error) :
  NoDup (err_path <$> onlyFirstError_from seen es) /\
  forall e, e ∈ onlyFirstError_from seen es -> err_path e ∉ seen.
Proof.
  revert seen. induction es as [|e0 rest IH]; intros seen; cbn.
  - split; [constructor | intros e He; by apply elem_of_nil in He].
  - case_bool_decide as Hin.
    + apply IH.
    + destruct (IH (err_path e0 :: seen)) as [Hnd Hout]. split.
      * cbn. constructor; [|exact Hnd].
        intros [e [Hp He]]%list_elem_of_fmap_1.
        apply (Hout e He). rewrite Hp. apply list_elem_of_here.
      * intros e [-> | He]%elem_of_cons; [exact Hin|].
        intros Hs. apply (Hout e He). by apply list_elem_of_further.
Qed.

(** With [onlyFirstError] every field is named at most once. *)
Lemma onlyFirstError_NoDup (es : list Error) :
  NoDup (err_path <$> onlyFirstError es).
Proof. apply onlyFirstError_from_paths. Qed.

End ErrorLists.

(** The error list of a 400 answer of SubdomainContact.js names each of the
    fields name, email and phone at most once, so it has at most three
    entries. *)
Theorem validation_failed_names_each_field_once `{Host}
    (req : SubdomainContact.Request) :
  exists es,
    SubdomainContact.body
      (SubdomainContact.validation_failed
         (Chain.run_all SubdomainContact.contactValidationRules
            (SubdomainContact.req_body req)).2)
    = SubdomainContact.JsonBody
        {| SubdomainContact.success := false;
           SubdomainContact.res_message := "Validation failed";
           SubdomainContact.errors := Some es;
           SubdomainContact.data := None;
           SubdomainContact.res_error := None |} /\
    NoDup (SubdomainContact.field <$> es) /\
    (forall e, e ∈ es ->
       SubdomainContact.field e ∈ ["name"; "email"; "phone"]) /\
    (length es <= 3)%nat.
Proof.
  eexists. split; [reflexivity|].
  set (es := Chain.onlyFirstError _).
  assert (SubdomainContact.field <$>
            map (fun err => {| SubdomainContact.field := Chain.err_path err;
                               SubdomainContact.fe_message := Chain.err_msg err |}) es
          = Chain.err_path <$> es) as Hfields.
  { clear. induction es as [|e es IH]; [reflexivity|]. cbn. by rewrite <- IH. }
  assert (NoDup (Chain.err_path <$> es)) as Hnd by apply onlyFirstError_NoDup.
  assert (forall p, p ∈ Chain.err_path <$> es -> p ∈ ["name"; "email"; "phone"])
    as Hin.
  { intros p [e [-> He]]%list_elem_of_fmap_1.
    apply onlyFirstError_from_subset in He.
    destruct (run_all_sound _ _ _ SubdomainContact_rules_distinct He)
      as (c & Hc & -> & _).
    unfold SubdomainContact.contactValidationRules in Hc.
    repeat (apply elem_of_cons in Hc as [-> | Hc]);
      try (by apply elem_of_nil in Hc); cbn; set_solver. }
  rewrite Hfields. split; [exact Hnd|]. split.
  - intros e He. apply Hin. rewrite <- Hfields. by apply list_elem_of_fmap_2.
  - rewrite <- (length_fmap SubdomainContact.field), Hfields.
    change 3%nat with (length ["name"; "email"; "phone"]).
    apply submseteq_length, NoDup_submseteq; [exact Hnd | exact Hin].
Qed.

(** ** What the rules let into the store *)

Section ChainsAgain.
Import Chain.

(** What a chain computes depends on its own field only. *)
Lemma run_own (c : t) (body body1 : gmap string string) :
  body1 !! path c = body !! path c ->
  (run c body1).1 !! path c = (run c body).1 !! path c /\
  (run c body1).2 = (run c body).2.
Proof.
  intros Heq. unfold run. rewrite Heq.
  destruct (body !! path c) as [v0|] eqn:Hb.
  - destruct (run_items (path c) (items c) v0). cbn.
    by rewrite !lookup_insert_eq.
  - destruct (optional c); [cbn; by rewrite Heq, Hb|].
    destruct (run_items (path c) (items c) ""). cbn.
    by rewrite !lookup_insert_eq.
Qed.

Lemma run_all_lookup (rules : list t) (body : gmap string string) (c : t) :
  NoDup (path <$> rules) -> c ∈ rules ->
  (run_all rules body).1 !! path c = (run c body).1 !! path c.
Proof.
  revert body. induction rules as [|c0 rest IH]; intros body Hnd Hin.
  - by apply elem_of_nil in Hin.
  - apply NoDup_cons in Hnd as [Hc0 Hnd]. cbn [run_all].
    destruct (run c0 body) as [body1 es1] eqn:E1.
    destruct (run_all rest body1) as [body2 es2] eqn:E2. cbn [fst].
    apply elem_of_cons in Hin as [-> | Hin].
    + pose proof (run_all_untouched rest body1 (path c0)) as Hu.
      rewrite E2 in Hu. cbn [fst] in Hu. rewrite Hu; [by rewrite E1|].
      intros c' Hc' Heq. apply Hc0. rewrite <- Heq.
      by apply list_elem_of_fmap_2.
    + specialize (IH body1 Hnd Hin). rewrite E2 in IH. cbn [fst] in IH.
      rewrite IH. apply run_own.
      pose proof (run_untouched c0 body (path c)) as Hu. rewrite E1 in Hu.
      apply Hu. intros Heq. apply Hc0. rewrite Heq.
      by apply list_elem_of_fmap_2.
Qed.

Lemma run_all_nil (rules : list t) (body : gmap string string) (c : t) :
  NoDup (path <$> rules) -> c ∈ rules ->
  (run_all rules body).2 = [] -> (run c body).2 = [].
Proof.
  revert body. induction rules as [|c0 rest IH]; intros body Hnd Hin.
  - by apply elem_of_nil in Hin.
  - apply NoDup_cons in Hnd as [Hc0 Hnd]. cbn [run_all].
    destruct (run c0 body) as [body1 es1] eqn:E1.
    destruct (run_all rest body1) as [body2 es2] eqn:E2. cbn [snd].
    intros [-> ->]%app_eq_nil.
    apply elem_of_cons in Hin as [-> | Hin]; [by rewrite E1|].
    specialize (IH body1 Hnd Hin). rewrite E2 in IH.
    rewrite <- (IH eq_refl). symmetry. apply run_own.
    pose proof (run_untouched c0 body (path c)) as Hu. rewrite E1 in Hu.
    apply Hu. intros Heq. apply Hc0. rewrite Heq.
    by apply list_elem_of_fmap_2.
Qed.

End ChainsAgain.

Module StoredFacts.
Import SubdomainContact.

Section Facts.
Context `{Host}.
Variable env : gmap string string.

(** The values an accepted body leaves in [req.body]. *)
Lemma accepted_body (body : gmap string string) :
  (Chain.run_all contactValidationRules body).2 = [] ->
  (exists v, (Chain.run_all contactValidationRules body).1 !! "name" = Some v /\
             Validator.notEmpty v = true /\
             isLength 0 (Some 100%nat) v = true) /\
  (exists v, (Chain.run_all contactValidationRules body).1 !! "email" = Some v /\
             Validator.notEmpty v = true /\ isEmail v = true /\
             isLength 0 (Some 255%nat) v = true) /\
  ((Chain.run_all contactValidationRules body).1 !! "phone" = None \/
   exists v, (Chain.run_all contactValidationRules body).1 !! "phone" = Some v /\
             isLength 0 (Some 20%nat) v = true /\
             allSpaceOr phone_char v = true).
Proof.
  remember contactValidationRules as rules eqn:Hr.
  intros Hok.
  assert (NoDup (Chain.path <$> rules)) as Hnd
    by (rewrite Hr; apply SubdomainContact_rules_distinct).
  pose proof (fun c Hc => run_all_lookup rules body c Hnd Hc) as Hlook.
  pose proof (fun c Hc => run_all_nil rules body c Hnd Hc Hok) as Hnil.
  unfold contactValidationRules in Hr.
  match type of Hr with
  | _ = [?c0; ?c1; ?c2] =>
      assert (c0 ∈ rules) as H0 by (rewrite Hr; apply list_elem_of_here);
      assert (c1 ∈ rules) as H1
        by (rewrite Hr; apply list_elem_of_further, list_elem_of_here);
      assert (c2 ∈ rules) as H2
        by (rewrite Hr; do 2 apply list_elem_of_further;
            apply list_elem_of_here);
      pose proof (Hlook c0 H0) as L0; pose proof (Hnil c0 H0) as N0;
      pose proof (Hlook c1 H1) as L1; pose proof (Hnil c1 H1) as N1;
      pose proof (Hlook c2 H2) as L2; pose proof (Hnil c2 H2) as N2
  end.
  clear Hlook Hnil H0 H1 H2 Hr Hnd Hok.
  cbn [Chain.path] in L0, L1, L2. rewrite L0, L1, L2. clear L0 L1 L2.
  unfold Chain.run in *.
  cbn [Chain.path Chain.optional Chain.items Chain.run_items] in *.
  split; [|split].
  - clear N1 N2.
    destruct (body !! "name") as [v0|]; cbn [fst snd] in *;
      (eexists; split; [apply lookup_insert_eq|]);
      destruct (Validator.notEmpty _), (isLength _ _ _); try discriminate;
      auto.
  - clear N0 N2.
    destruct (body !! "email") as [v0|]; cbn [fst snd] in *;
      (eexists; split; [apply lookup_insert_eq|]);
      destruct (Validator.notEmpty _), (isEmail _), (isLength _ _ _);
      try discriminate; auto.
  - clear N0 N1.
    destruct (body !! "phone") as [v0|] eqn:Hb; cbn [fst snd] in *.
    + right. eexists. split; [apply lookup_insert_eq|].
      destruct (isLength _ _ _), (allSpaceOr _ _); try discriminate; auto.
    + left. exact Hb.
Qed.

(** The object an accepted request creates carries validated values. *)
Lemma submit_begin_validated (req : Request) (st st' : State)
    (out : list Output) (sub : Submission) :
  submit_begin env req st = (st', out) ->
  heap st' = (heap st ++ [sub])%list ->
  Stored.validated sub.
Proof.
  unfold submit_begin.
  pose proof (accepted_body (req_body req)) as Hacc.
  destruct (Chain.run_all _ _) as [body' es]. cbn [fst snd] in Hacc.
  destruct es as [|e es].
  - intros [= <- _]. cbn [heap]. intros Heq.
    apply app_inv_head in Heq. injection Heq as <-.
    destruct (Hacc eq_refl)
      as ((vn & Hn & Hn1 & Hn2) & (ve & He & He1 & He2 & He3) & Hp).
    unfold Stored.validated. cbn [name email phone].
    rewrite Hn, He. cbn [JS.show].
    repeat (split; [assumption|]).
    destruct Hp as [-> | (vp & -> & Hp1 & Hp2)]; [exact I|].
    destruct vp as [|a vp]; [exact I|]. cbn [JS.truthy].
    split; [discriminate | auto].
  - intros [= <- _] Heq.
    apply (f_equal length) in Heq. rewrite length_app in Heq.
    cbn [length] in Heq. lia.
Qed.

(** In every state the server can reach, every submission holds values
    that satisfy the rules of lines 66-86: a name that is not empty and at
    most 100 long, an address that is not empty, is an e-mail address and is
    at most 255 long, and either no phone number or one that is not empty,
    at most 20 long and made of the characters of the phone pattern. *)
Theorem stored_submissions_are_validated (evs : list Event) (st : State)
    (out : list Output) (l : nat) (sub : Submission) :
  run env evs init = Some (st, out) ->
  heap st !! l = Some sub ->
  Stored.validated sub.
Proof.
  intros Hrun.
  pose proof (SubdomainContactFacts.run_reachable env _ _ _ _
                (reachable_init env) Hrun) as Hreach.
  clear Hrun. revert l sub.
  induction Hreach as [| st e st' out' Hreach IH Hstep].
  - intros l sub Hl. cbn in Hl. by rewrite lookup_nil in Hl.
  - intros l sub Hl.
    destruct (StoreFacts.step_objects env e st st' out' Hstep)
      as [Hh | [(new & Hh & _) | (l0 & sub0 & Hin & Hl0 & Hh)]].
    + rewrite Hh in Hl. by apply (IH l).
    + assert (Stored.validated new) as Hnew.
      { destruct e as [req | l1 admin user | now]; cbn [step] in Hstep.
        - injection Hstep as Hst. unfold submit in Hst.
          destruct (contactLimiter _ _ _) as [pass h]. destruct pass.
          + eapply submit_begin_validated; [exact Hst | exact Hh].
          + injection Hst as <- _. cbn [heap] in Hh.
            apply (f_equal length) in Hh. rewrite length_app in Hh.
            cbn [length] in Hh. lia.
        - apply SubdomainContactFacts.submit_settle_cases in Hstep
            as (_ & s & s' & _ & Hh' & _).
          rewrite Hh' in Hh. apply (f_equal length) in Hh.
          rewrite length_insert, length_app in Hh. cbn [length] in Hh. lia.
        - injection Hstep as <- _. cbn [sweep heap] in Hh.
          apply (f_equal length) in Hh. rewrite length_app in Hh.
          cbn [length] in Hh. lia. }
      rewrite Hh in Hl. apply lookup_app_Some in Hl as [Hl | [_ Hl]].
      * by apply (IH l).
      * apply list_lookup_singleton_Some in Hl as [_ <-]. exact Hnew.
    + assert (l0 < length (heap st))%nat as Hlt by (by eapply lookup_lt_Some).
      pose proof (IH l0 sub0 Hl0) as Hv0.
      destruct (decide (l0 = l)) as [-> | Hne].
      * destruct Hh as [Hh | [msg Hh]]; rewrite Hh in Hl;
          rewrite list_lookup_insert_eq in Hl by exact Hlt;
          injection Hl as <-; exact Hv0.
      * destruct Hh as [Hh | [msg Hh]]; rewrite Hh in Hl;
          rewrite list_lookup_insert_ne in Hl by exact Hne; by apply (IH l).
Qed.

End Facts.
End StoredFacts.

(** The theorem on the state after one accepted request. *)
Lemma stored_submissions_are_validated_witness :
  exists sub,
    SubdomainContact.heap
      (@SubdomainContact.submit Examples.host ∅ Examples.request
         SubdomainContact.init).1 !! 0%nat = Some sub /\
    @Stored.validated Examples.host sub.
Proof.
  eexists. split; [vm_compute; reflexivity|].
  eapply (@StoredFacts.stored_submissions_are_validated Examples.host ∅
            [SubdomainContact.Submit Examples.request] _ _ 0%nat).
  - vm_compute. reflexivity.
  - vm_compute. reflexivity.
Defined.

(** ** The contact router of part_000 *)

Module Part000Facts.
Import Part000 Part000Server.

Section Facts.
Context `{Host}.
Variable env : gmap string string.

(** The two ways [POST /submit] begins. *)
Lemma submit_begin_shape (req : Request) (st : State) :
  (valid req = false /\ (submit_begin env req st).1 = st) \/
  (valid req = true /\
   exists sub um,
     (submit_begin env req st).1 =
       {| submissions := (submissions st ++ [sub])%list;
          inflight := <[length (submissions st) := AwaitAdmin um]>
                        (inflight st) |} /\
     mail_to um = email sub /\
     mail_subject um = "Thank you for contacting EmotionEase").
Proof.
  unfold submit_begin, valid.
  destruct (Chain.run_all contactValidationRules (req_body req))
    as [body' es].
  cbn [snd]. destruct es as [|e es].
  - right. split; [reflexivity|]. cbv zeta. cbn [fst].
    match goal with
    | |- context [(submissions st ++ [?s])%list] =>
        match goal with
        | |- context [AwaitAdmin ?m] => exists s, m
        end
    end.
    split; [reflexivity|]. split; reflexivity.
  - left. split; reflexivity.
Qed.

(** A settled send leaves the array as it is. *)
Lemma submit_settle_keeps (i : nat) (res : SendResult) (st st' : State)
    (out : list Output) :
  submit_settle i res st = Some (st', out) ->
  submissions st' = submissions st.
Proof.
  unfold submit_settle.
  destruct (inflight st !! i) as [ph|]; [|discriminate].
  destruct (submissions st !! i) as [sub|]; [|discriminate].
  cbn [mbind option_bind].
  destruct res as [|msg]; [destruct ph|]; by intros [= <- _].
Qed.

Lemma step_length (e : Event) (st st' : State) (out : list Output) :
  step env e st = Some (st', out) ->
  length (submissions st') =
    (length (submissions st) + accepted [e])%nat.
Proof.
  destruct e as [req | i res |]; cbn [step accepted].
  - intros Hs. injection Hs as Hs.
    apply (f_equal fst) in Hs. cbn [fst] in Hs. subst st'.
    destruct (submit_begin_shape req st)
      as [[-> ->] | (-> & sub & um & -> & _)].
    + lia.
    + cbn [submissions]. rewrite length_app. cbn [length]. lia.
  - intros Hs%submit_settle_keeps. rewrite Hs. lia.
  - intros [= <- _]. lia.
Qed.

(** The array holds one entry for each request that passed validation,
    whatever became of its two messages: nothing removes an entry, and a
    failed send leaves it in place. [GET /submissions] reports that number. *)
Theorem listing_counts_accepted_requests (evs : list Event) (st st' : State)
    (out : list Output) :
  run env evs st = Some (st', out) ->
  length (submissions st') =
    (length (submissions st) + accepted evs)%nat /\
  count (body (get_submissions st')) =
    Some (length (submissions st) + accepted evs)%nat.
Proof.
  intros Hrun.
  assert (length (submissions st') =
            (length (submissions st) + accepted evs)%nat) as Hlen.
  { revert st st' out Hrun.
    induction evs as [|e rest IH]; intros st st' out Hrun.
    - cbn in Hrun. injection Hrun as <- _. cbn [accepted]. lia.
    - cbn [run] in Hrun.
      destruct (step env e st) as [[st1 out1]|] eqn:Hstep; [|discriminate].
      cbn [mbind option_bind] in Hrun.
      destruct (run env rest st1) as [[st2 out2]|] eqn:Hrest; [|discriminate].
      cbn [mbind option_bind] in Hrun. injection Hrun as <- _.
      rewrite (IH _ _ _ Hrest), (step_length _ _ _ _ Hstep).
      cbn [accepted]. destruct e; cbn [accepted]; lia. }
  split; [exact Hlen|]. cbn [get_submissions body count]. by rewrite Hlen.
Qed.

Lemma reachable_prepared (st : State) :
  reachable env st -> prepared st.
Proof.
  induction 1 as [| st e st' out Hreach IH Hstep].
  - intros i um Hi. cbn in Hi. by rewrite lookup_empty in Hi.
  - destruct e as [req | j res |]; cbn [step] in Hstep.
    + injection Hstep as Hs. apply (f_equal fst) in Hs. cbn [fst] in Hs.
      subst st'.
      destruct (submit_begin_shape req st)
        as [[_ ->] | (_ & sub & um0 & -> & Hto & Hsubj)]; [exact IH|].
      intros i um. cbn [inflight submissions].
      destruct (decide (i = length (submissions st))) as [-> | Hne].
      * rewrite lookup_insert_eq. intros [= <-]. exists sub.
        split; [|by split].
        rewrite lookup_app_r by lia. by rewrite Nat.sub_diag.
      * rewrite lookup_insert_ne by done. intros Hi.
        destruct (IH i um Hi) as (sub0 & Hl & Hrest).
        exists sub0. split; [|exact Hrest]. by apply lookup_app_l_Some.
    + pose proof (submit_settle_keeps _ _ _ _ _ Hstep) as Hk.
      unfold submit_settle in Hstep.
      destruct (inflight st !! j) as [ph|] eqn:Hj; [|discriminate].
      destruct (submissions st !! j) as [sub|]; [|discriminate].
      cbn [mbind option_bind] in Hstep.
      intros i um. rewrite Hk.
      destruct res as [|msg]; [destruct ph|];
        injection Hstep as <- _; cbn [inflight]; intros Hi.
      * destruct (decide (i = j)) as [-> | Hne];
          [by rewrite lookup_insert_eq in Hi|].
        rewrite lookup_insert_ne in Hi by done. by apply IH.
      * apply lookup_delete_Some in Hi as [_ Hi]. by apply IH.
      * apply lookup_delete_Some in Hi as [_ Hi]. by apply IH.
    + injection Hstep as <- _. exact IH.
Qed.

(** The two messages go out one after the other: a message leaves on a
    successful send only when that send was the admin one, and it is then the
    confirmation, addressed to the address stored with the submission. After
    a failed send no message leaves and the response is the 500 of the
    [catch] block with the raw error text, the entry staying in the array. *)
Theorem confirmation_follows_admin_send (st st' : State) (i : nat)
    (res : SendResult) (out : list Output) :
  reachable env st ->
  step env (Settle i res) st = Some (st', out) ->
  exists sub, submissions st' !! i = Some sub /\
    match res with
    | Sent =>
        (exists um, inflight st !! i = Some (AwaitAdmin um) /\
           out = [SendMail um] /\ mail_to um = email sub /\
           mail_subject um = "Thank you for contacting EmotionEase" /\
           inflight st' !! i = Some AwaitUser) \/
        (exists r, inflight st !! i = Some AwaitUser /\
           out = [Respond r] /\ statusCode r = 200 /\
           data (body r) = Some (One sub) /\ inflight st' !! i = None)
    | SendError msg =>
        out = [Respond (submit_catch msg)] /\
        statusCode (submit_catch msg) = 500 /\
        res_error (body (submit_catch msg)) = Some msg /\
        inflight st' !! i = None
    end.
Proof.
  intros Hreach%reachable_prepared Hstep. cbn [step] in Hstep.
  pose proof (submit_settle_keeps _ _ _ _ _ Hstep) as Hk.
  unfold submit_settle in Hstep.
  destruct (inflight st !! i) as [ph|] eqn:Hi; [|discriminate].
  destruct (submissions st !! i) as [sub|] eqn:Hsub; [|discriminate].
  cbn [mbind option_bind] in Hstep.
  exists sub. rewrite Hk. split; [exact Hsub|].
  destruct res as [|msg]; [destruct ph as [um|]|];
    injection Hstep as <- <-; cbn [inflight].
  - left. exists um. destruct (Hreach i um Hi) as (sub' & Hsub' & Hto & Hsj).
    rewrite Hsub in Hsub'. injection Hsub' as <-.
    rewrite lookup_insert_eq. done.
  - right. eexists. rewrite lookup_delete_eq. done.
  - rewrite lookup_delete_eq. done.
Qed.

End Facts.
End Part000Facts.

(** The count after one accepted request whose admin send failed. *)
Lemma listing_counts_accepted_requests_witness :
  exists st' out,
    @Part000Server.run Examples.host ∅
      [Part000Server.Submit Examples.markup_request000;
       Part000Server.Settle 0 (SendError "timeout");
       Part000Server.List] Part000.init = Some (st', out) /\
    Part000.count (Part000.body (Part000.get_submissions st')) = Some 1%nat.
Proof.
  assert (exists st' out,
    @Part000Server.run Examples.host ∅
      [Part000Server.Submit Examples.markup_request000;
       Part000Server.Settle 0 (SendError "timeout");
       Part000Server.List] Part000.init = Some (st', out))
    as (st' & out & Hrun) by (vm_compute; eauto).
  exists st', out. split; [exact Hrun|].
  exact (proj2 (@Part000Facts.listing_counts_accepted_requests
                  Examples.host ∅ _ _ _ _ Hrun)).
Defined.

(** The confirmation of the first request once its admin send succeeded. *)
Lemma confirmation_follows_admin_send_witness :
  exists st st' out sub,
    @Part000Server.reachable Examples.host ∅ st /\
    @Part000Server.step Examples.host ∅ (Part000Server.Settle 0 Sent) st
      = Some (st', out) /\
    Part000.submissions st' !! 0%nat = Some sub.
Proof.
  pose (st := (@Part000.submit_begin Examples.host ∅
                 Examples.markup_request000 Part000.init).1).
  assert (@Part000Server.reachable Examples.host ∅ st) as Hreach.
  { eapply (@Part000Server.reachable_step Examples.host ∅ Part000.init
              (Part000Server.Submit Examples.markup_request000)).
    - apply Part000Server.reachable_init.
    - cbn [Part000Server.step]. apply f_equal, surjective_pairing. }
  assert (exists st' out,
    @Part000Server.step Examples.host ∅ (Part000Server.Settle 0 Sent) st
      = Some (st', out)) as (st' & out & Hstep) by (vm_compute; eauto).
  destruct (@Part000Facts.confirmation_follows_admin_send Examples.host ∅
              st st' 0%nat Sent out Hreach Hstep) as (sub & Hsub & _).
  exists st, st', out, sub. split; [exact Hreach|]. split; [exact Hstep|].
  exact Hsub.
Defined.

(** ** The order of the links of a chain *)

Section ChainErrors.
Import Chain.

(** With one chain per field, the errors of a route are those of its chains,
    each run on the body as it arrived. *)
Lemma run_all_errors (rules : list t) (body : gmap string string) (e : Error) :
  NoDup (path <$> rules) ->
  e ∈ (run_all rules body).2 <-> exists c, c ∈ rules /\ e ∈ (run c body).2.
Proof.
  revert body. induction rules as [|c0 rest IH]; intros body Hnd.
  - cbn. split; [intros Hin; inversion Hin|].
    intros (c & Hc & _). inversion Hc.
  - apply NoDup_cons in Hnd as [Hc0 Hnd]. cbn [run_all].
    destruct (run c0 body) as [body1 es1] eqn:E1.
    specialize (IH body1 Hnd).
    destruct (run_all rest body1) as [body2 es2] eqn:E2. cbn [snd] in *.
    assert (forall c, c ∈ rest -> (run c body1).2 = (run c body).2) as Hsame.
    { intros c Hc. apply run_own.
      pose proof (run_untouched c0 body (path c)) as Hu. rewrite E1 in Hu.
      apply Hu. intros Heq. apply Hc0. rewrite Heq.
      by apply list_elem_of_fmap_2. }
    rewrite elem_of_app, IH. split.
    + intros [Hin | (c & Hc & Hin)].
      * exists c0. split; [apply list_elem_of_here | by rewrite E1].
      * exists c. split; [by apply list_elem_of_further|].
        by rewrite <- (Hsame c Hc).
    + intros (c & [-> | Hc]%elem_of_cons & Hin).
      * left. by rewrite E1 in Hin.
      * right. exists c. split; [exact Hc | by rewrite (Hsame c Hc)].
Qed.

Lemma run_all_lookup_head (c0 : t) (rest : list t)
    (body : gmap string string) :
  NoDup (path <$> c0 :: rest) ->
  (run_all (c0 :: rest) body).1 !! path c0 = (run c0 body).1 !! path c0.
Proof. intros Hnd. apply run_all_lookup; [exact Hnd | apply list_elem_of_here]. Qed.

End ChainErrors.

(** A name that [trim] empties: the route of SubdomainContact.js, which
    trims before it tests, answers that the name is required; the router of
    part_002 and the contact router of part_000, which test before they
    trim, never do, and both leave the empty name in [req.body]. *)
Theorem blank_name_is_refused_only_where_trim_comes_first `{Host}
    (body : gmap string string) (raw : string) :
  body !! "name" = Some raw -> raw <> "" -> trim raw = "" ->
  {| Chain.err_path := "name"; Chain.err_msg := "Name is required";
     Chain.err_value := "" |}
    ∈ (Chain.run_all SubdomainContact.contactValidationRules body).2 /\
  (forall e, e ∈ (Chain.run_all Part002.contactValidationRules body).2 ->
     Chain.err_path e = "name" -> Chain.err_msg e <> "Name is required") /\
  (Chain.run_all Part002.contactValidationRules body).1 !! "name" = Some "" /\
  (forall e, e ∈ (Chain.run_all Part000.contactValidationRules body).2 ->
     Chain.err_path e <> "name") /\
  (Chain.run_all Part000.contactValidationRules body).1 !! "name" = Some "".
Proof.
  intros Hb Hraw Htrim.
  assert (Validator.notEmpty raw = true) as Hne.
  { unfold Validator.notEmpty. apply negb_true_iff, String.eqb_neq, Hraw. }
  split; [|split; [|split; [|split]]].
  - apply (run_all_errors _ _ _ SubdomainContact_rules_distinct).
    eexists. split; [apply list_elem_of_here|].
    unfold Chain.run.
    cbn [Chain.path Chain.optional Chain.items Chain.run_items].
    rewrite Hb. cbn [Chain.run_items]. rewrite Htrim.
    change (Validator.escape "") with "".
    change (Validator.notEmpty "") with false.
    cbn [fst snd]. destruct (isLength _ _ _); apply list_elem_of_here.
  - intros e Hin Hp.
    apply (run_all_errors _ _ _ Part002_rules_distinct) in Hin
      as (c & Hc & Hin).
    pose proof (run_sound c body e Hin) as [Hpc _]. rewrite Hp in Hpc.
    unfold Part002.contactValidationRules in Hc.
    repeat (apply elem_of_cons in Hc as [-> | Hc]);
      [| discriminate Hpc | discriminate Hpc | inversion Hc].
    unfold Chain.run in Hin.
    cbn [Chain.path Chain.optional Chain.items] in Hin. rewrite Hb in Hin.
    cbn [Chain.run_items] in Hin. rewrite Hne, Htrim in Hin.
    destruct (isLength _ _ _); cbn [fst snd] in Hin.
    + inversion Hin.
    + apply list_elem_of_singleton in Hin as ->. discriminate.
  - pose proof Part002_rules_distinct as Hnd.
    unfold Part002.contactValidationRules in Hnd |- *.
    etrans; [apply (run_all_lookup_head _ _ body Hnd)|]. unfold Chain.run.
    cbn [Chain.path Chain.optional Chain.items]. rewrite Hb.
    cbn [Chain.run_items]. rewrite Htrim.
    change (Validator.escape "") with "".
    destruct (isLength _ _ _); cbn [fst]; apply lookup_insert_eq.
  - intros e Hin Hp.
    apply (run_all_errors _ _ _ Part000_rules_distinct) in Hin
      as (c & Hc & Hin).
    pose proof (run_sound c body e Hin) as [Hpc _]. rewrite Hp in Hpc.
    unfold Part000.contactValidationRules in Hc.
    repeat (apply elem_of_cons in Hc as [-> | Hc]);
      [| discriminate Hpc | discriminate Hpc | discriminate Hpc
       | inversion Hc].
    unfold Chain.run in Hin.
    cbn [Chain.path Chain.optional Chain.items] in Hin. rewrite Hb in Hin.
    cbn [Chain.run_items] in Hin. rewrite Hne in Hin.
    cbn [fst snd] in Hin. inversion Hin.
  - pose proof Part000_rules_distinct as Hnd.
    unfold Part000.contactValidationRules in Hnd |- *.
    etrans; [apply (run_all_lookup_head _ _ body Hnd)|]. unfold Chain.run.
    cbn [Chain.path Chain.optional Chain.items]. rewrite Hb.
    cbn [Chain.run_items]. rewrite Htrim.
    change (Validator.escape "") with "".
    cbn [fst]. apply lookup_insert_eq.
Qed.

(** The theorem on a name of two spaces. *)
Lemma blank_name_witness :
  {| Chain.err_path := "name"; Chain.err_msg := "Name is required";
     Chain.err_value := "" |}
    ∈ (Chain.run_all (@SubdomainContact.contactValidationRules Examples.host)
         (<["name" := "  "]> ∅)).2.
Proof.
  apply (@blank_name_is_refused_only_where_trim_comes_first Examples.host
           (<["name" := "  "]> ∅) "  ").
  - reflexivity.
  - discriminate.
  - reflexivity.
Defined.
